(** * The snake engine of [src/main.cpp], embedded and verified

    The game state is the C struct [SnakeContext]: a bit-packed playfield
    of 24 x 18 cells at three bits per cell, followed by the head and tail
    coordinates, the pending direction, the tail-inhibit counter and the
    occupied-cell counter.  The functions below follow [main.cpp] line by
    line; integer types keep their C width through explicit wrap-around.

    Conventions of the embedding:
    - [char] is the signed 8-bit type ([wrap_around_] tests [*val < 0]),
      [unsigned] and [int] are 32 bits wide, [unsigned short] 16 bits,
      [Uint64] 64 bits;
    - the two bytes that [SDL_memcpy] moves to and from an
      [unsigned short] are read least significant byte first;
    - [SDL_rand] and [SDL_GetTicks] belong to SDL: the generator is a
      stream of draws that the functions consume call by call, the clock
      value is an argument of the frame driver. *)

From Stdlib Require Import ZArith Lia List Bool.
From stdpp Require Import base list.

Local Open Scope Z_scope.

(** ** C scalar types *)

Definition to_schar (z : Z) : Z := (z + 128) mod 256 - 128.
Definition to_uchar (z : Z) : Z := z mod 256.
Definition to_ushort (z : Z) : Z := z mod 65536.
Definition to_uint (z : Z) : Z := z mod 4294967296.
Definition to_int (z : Z) : Z := (z + 2147483648) mod 4294967296 - 2147483648.
Definition to_uint64 (z : Z) : Z := z mod 18446744073709551616.

(** ** Constants of the game *)

Definition STEP_RATE_IN_MILLISECONDS : Z := 125.
Definition SNAKE_GAME_WIDTH : Z := 24.
Definition SNAKE_GAME_HEIGHT : Z := 18.
Definition SNAKE_MATRIX_SIZE : Z := SNAKE_GAME_WIDTH * SNAKE_GAME_HEIGHT.
Definition THREE_BITS : Z := 7.
Definition SNAKE_CELL_MAX_BITS : Z := 3.

(** [SHIFT(x, y)]: the operands are promoted to [unsigned]. *)
Definition SHIFT (x y : Z) : Z :=
  to_uint ((x + y * SNAKE_GAME_WIDTH) * SNAKE_CELL_MAX_BITS).

(** [SnakeCell]: a three-bit code; 6 and 7 are unused code points that a
    read of the packed store can still produce. *)
Definition SnakeCell := Z.
Definition SNAKE_CELL_NOTHING : SnakeCell := 0.
Definition SNAKE_CELL_SRIGHT : SnakeCell := 1.
Definition SNAKE_CELL_SUP : SnakeCell := 2.
Definition SNAKE_CELL_SLEFT : SnakeCell := 3.
Definition SNAKE_CELL_SDOWN : SnakeCell := 4.
Definition SNAKE_CELL_FOOD : SnakeCell := 5.

Inductive SnakeDirection : Set :=
  | SNAKE_DIR_RIGHT
  | SNAKE_DIR_UP
  | SNAKE_DIR_LEFT
  | SNAKE_DIR_DOWN.

(** The integer value of an enumerator, as stored in the [char] field
    [next_dir]. *)
Definition dir_code (d : SnakeDirection) : Z :=
  match d with
  | SNAKE_DIR_RIGHT => 0
  | SNAKE_DIR_UP => 1
  | SNAKE_DIR_LEFT => 2
  | SNAKE_DIR_DOWN => 3
  end.

(** Number of bytes of [cells]: [(SNAKE_MATRIX_SIZE * SNAKE_CELL_MAX_BITS) / 8U]. *)
Definition CELLS_BYTES : Z := (SNAKE_MATRIX_SIZE * SNAKE_CELL_MAX_BITS) / 8.

Record SnakeContext : Set := mkSnakeContext {
  cells : list Z;
  head_xpos : Z;
  head_ypos : Z;
  tail_xpos : Z;
  tail_ypos : Z;
  next_dir : Z;
  inhibit_tail_step : Z;
  occupied_cells : Z
}.

Definition set_cells (v : list Z) (c : SnakeContext) : SnakeContext :=
  mkSnakeContext v (head_xpos c) (head_ypos c) (tail_xpos c) (tail_ypos c)
    (next_dir c) (inhibit_tail_step c) (occupied_cells c).
Definition set_head_xpos (v : Z) (c : SnakeContext) : SnakeContext :=
  mkSnakeContext (cells c) v (head_ypos c) (tail_xpos c) (tail_ypos c)
    (next_dir c) (inhibit_tail_step c) (occupied_cells c).
Definition set_head_ypos (v : Z) (c : SnakeContext) : SnakeContext :=
  mkSnakeContext (cells c) (head_xpos c) v (tail_xpos c) (tail_ypos c)
    (next_dir c) (inhibit_tail_step c) (occupied_cells c).
Definition set_tail_xpos (v : Z) (c : SnakeContext) : SnakeContext :=
  mkSnakeContext (cells c) (head_xpos c) (head_ypos c) v (tail_ypos c)
    (next_dir c) (inhibit_tail_step c) (occupied_cells c).
Definition set_tail_ypos (v : Z) (c : SnakeContext) : SnakeContext :=
  mkSnakeContext (cells c) (head_xpos c) (head_ypos c) (tail_xpos c) v
    (next_dir c) (inhibit_tail_step c) (occupied_cells c).
Definition set_next_dir (v : Z) (c : SnakeContext) : SnakeContext :=
  mkSnakeContext (cells c) (head_xpos c) (head_ypos c) (tail_xpos c)
    (tail_ypos c) v (inhibit_tail_step c) (occupied_cells c).
Definition set_inhibit_tail_step (v : Z) (c : SnakeContext) : SnakeContext :=
  mkSnakeContext (cells c) (head_xpos c) (head_ypos c) (tail_xpos c)
    (tail_ypos c) (next_dir c) v (occupied_cells c).
Definition set_occupied_cells (v : Z) (c : SnakeContext) : SnakeContext :=
  mkSnakeContext (cells c) (head_xpos c) (head_ypos c) (tail_xpos c)
    (tail_ypos c) (next_dir c) (inhibit_tail_step c) v.

(** ** Bytes of the struct seen through [ctx->cells + k]

    [cells] occupies the offsets 0 .. 161 of the struct and the [char]
    member [head_xpos] follows it at offset 162.  A two-byte copy at
    [cells + 161] therefore covers the last byte of the array and
    [head_xpos].  No coordinate of the grid reaches an offset beyond 162
    (lemma [window_in_struct]); there the model reads 0 and drops the
    store. *)

Definition ctx_load (c : SnakeContext) (off : Z) : Z :=
  if (0 <=? off) && (off <? CELLS_BYTES) then
    default 0 (cells c !! Z.to_nat off)
  else if off =? CELLS_BYTES then to_uchar (head_xpos c)
  else 0.

Definition ctx_store (c : SnakeContext) (off : Z) (b : Z) : SnakeContext :=
  if (0 <=? off) && (off <? CELLS_BYTES) then
    set_cells (<[Z.to_nat off := b]> (cells c)) c
  else if off =? CELLS_BYTES then set_head_xpos (to_schar b) c
  else c.

(** [SDL_memcpy(&range, p, sizeof(range))] and back. *)
Definition load_range (c : SnakeContext) (off : Z) : Z :=
  ctx_load c off + 256 * ctx_load c (off + 1).

Definition store_range (c : SnakeContext) (off : Z) (range : Z) : SnakeContext :=
  ctx_store (ctx_store c off (range mod 256)) (off + 1) (range / 256).

(** ** The playfield store *)

Definition snake_cell_at (ctx : SnakeContext) (x y : Z) : SnakeCell :=
  let shift := to_int (SHIFT x y) in
  let range := load_range ctx (Z.quot shift 8) in
  Z.land (Z.shiftr range (Z.rem shift 8)) THREE_BITS.

Definition put_cell_at_ (ctx : SnakeContext) (x y : Z) (ct : SnakeCell)
  : SnakeContext :=
  let shift := to_int (SHIFT x y) in
  let adjust := Z.rem shift 8 in
  let pos := Z.quot shift 8 in
  let range := load_range ctx pos in
  let range :=
    to_ushort (Z.land range (to_uint (Z.lnot (Z.shiftl THREE_BITS adjust)))) in
  let range :=
    to_ushort (Z.lor range (Z.shiftl (Z.land ct THREE_BITS) adjust)) in
  store_range ctx pos range.

Definition are_cells_full_ (ctx : SnakeContext) : bool :=
  occupied_cells ctx =? to_uint (SNAKE_GAME_WIDTH * SNAKE_GAME_HEIGHT).

(** ** Food placement

    [SDL_rand(n)] is SDL's generator.  Its successive results are taken
    from a stream [rnd] of draws: the call number [p] with bound [n]
    returns [rnd p mod n], a value of [[0, n)], and every sequence of
    in-range results is the image of some stream.  The number of calls
    made so far is threaded through the functions that draw. *)

Definition SDL_rand (rnd : nat -> Z) (p : nat) (n : Z) : Z := rnd p mod n.

(** The [while (true)] loop of [new_food_pos_] has no bound in the source;
    [fuel] bounds the number of attempts, and [None] means that the bound
    was reached before an empty cell was drawn. *)
Fixpoint new_food_pos_ (rnd : nat -> Z) (fuel : nat) (p : nat)
  (ctx : SnakeContext) : option (nat * SnakeContext) :=
  match fuel with
  | O => None
  | S fuel' =>
      let x := to_schar (SDL_rand rnd p SNAKE_GAME_WIDTH) in
      let y := to_schar (SDL_rand rnd (S p) SNAKE_GAME_HEIGHT) in
      if snake_cell_at ctx x y =? SNAKE_CELL_NOTHING then
        Some (S (S p), put_cell_at_ ctx x y SNAKE_CELL_FOOD)
      else new_food_pos_ rnd fuel' (S (S p)) ctx
  end.

(** ** The snake state machine *)

(** The [for (i = 0; i < 4; i++)] loop of [snake_initialize], with the
    number of remaining iterations as argument. *)
Fixpoint initial_food (rnd : nat -> Z) (fuel : nat) (n : nat) (p : nat)
  (ctx : SnakeContext) : option (nat * SnakeContext) :=
  match n with
  | O => Some (p, ctx)
  | S n' =>
      '(p1, ctx1) ← new_food_pos_ rnd fuel p ctx;
      initial_food rnd fuel n' p1
        (set_occupied_cells (to_uint (occupied_cells ctx1 + 1)) ctx1)
  end.

Definition snake_initialize (rnd : nat -> Z) (fuel : nat) (p : nat)
  (ctx : SnakeContext) : option (nat * SnakeContext) :=
  let ctx := set_cells (replicate (Z.to_nat CELLS_BYTES) 0) ctx in
  let ctx := set_tail_xpos (to_schar (SNAKE_GAME_WIDTH / 2)) ctx in
  let ctx := set_head_xpos (tail_xpos ctx) ctx in
  let ctx := set_tail_ypos (to_schar (SNAKE_GAME_HEIGHT / 2)) ctx in
  let ctx := set_head_ypos (tail_ypos ctx) ctx in
  let ctx := set_next_dir (to_schar (dir_code SNAKE_DIR_RIGHT)) ctx in
  let ctx := set_occupied_cells (to_uint 4) ctx in
  let ctx := set_inhibit_tail_step (to_schar (occupied_cells ctx)) ctx in
  let ctx := set_occupied_cells (to_uint (occupied_cells ctx - 1)) ctx in
  let ctx := put_cell_at_ ctx (tail_xpos ctx) (tail_ypos ctx) SNAKE_CELL_SRIGHT in
  initial_food rnd fuel 4 p ctx.

(** The condition of the [if] in [snake_redir]. *)
Definition redir_allowed (dir : SnakeDirection) (ct : SnakeCell) : bool :=
  match dir with
  | SNAKE_DIR_RIGHT => negb (ct =? SNAKE_CELL_SLEFT)
  | SNAKE_DIR_UP => negb (ct =? SNAKE_CELL_SDOWN)
  | SNAKE_DIR_LEFT => negb (ct =? SNAKE_CELL_SRIGHT)
  | SNAKE_DIR_DOWN => negb (ct =? SNAKE_CELL_SUP)
  end.

Definition snake_redir (ctx : SnakeContext) (dir : SnakeDirection)
  : SnakeContext :=
  let ct := snake_cell_at ctx (head_xpos ctx) (head_ypos ctx) in
  if redir_allowed dir ct then set_next_dir (to_schar (dir_code dir)) ctx
  else ctx.

Definition wrap_around_ (val max : Z) : Z :=
  if val <? 0 then to_schar (max - 1)
  else if val >? max - 1 then 0
  else val.

(** Lines 202-226 of [snake_step]: the tail. *)
Definition snake_step_tail (ctx : SnakeContext) : SnakeContext :=
  let ctx :=
    set_inhibit_tail_step (to_schar (inhibit_tail_step ctx - 1)) ctx in
  if inhibit_tail_step ctx =? 0 then
    let ctx :=
      set_inhibit_tail_step (to_schar (inhibit_tail_step ctx + 1)) ctx in
    let ct := snake_cell_at ctx (tail_xpos ctx) (tail_ypos ctx) in
    let ctx :=
      put_cell_at_ ctx (tail_xpos ctx) (tail_ypos ctx) SNAKE_CELL_NOTHING in
    let ctx :=
      if ct =? SNAKE_CELL_SRIGHT then
        set_tail_xpos (to_schar (tail_xpos ctx + 1)) ctx
      else if ct =? SNAKE_CELL_SUP then
        set_tail_ypos (to_schar (tail_ypos ctx - 1)) ctx
      else if ct =? SNAKE_CELL_SLEFT then
        set_tail_xpos (to_schar (tail_xpos ctx - 1)) ctx
      else if ct =? SNAKE_CELL_SDOWN then
        set_tail_ypos (to_schar (tail_ypos ctx + 1)) ctx
      else ctx in
    let ctx :=
      set_tail_xpos
        (wrap_around_ (tail_xpos ctx) (to_schar SNAKE_GAME_WIDTH)) ctx in
    set_tail_ypos
      (wrap_around_ (tail_ypos ctx) (to_schar SNAKE_GAME_HEIGHT)) ctx
  else ctx.

(** Lines 230-246 of [snake_step]: the head. *)
Definition snake_step_head (ctx : SnakeContext) : SnakeContext :=
  let d := next_dir ctx in
  let ctx :=
    if d =? dir_code SNAKE_DIR_RIGHT then
      set_head_xpos (to_schar (head_xpos ctx + 1)) ctx
    else if d =? dir_code SNAKE_DIR_UP then
      set_head_ypos (to_schar (head_ypos ctx - 1)) ctx
    else if d =? dir_code SNAKE_DIR_LEFT then
      set_head_xpos (to_schar (head_xpos ctx - 1)) ctx
    else if d =? dir_code SNAKE_DIR_DOWN then
      set_head_ypos (to_schar (head_ypos ctx + 1)) ctx
    else ctx in
  let ctx :=
    set_head_xpos
      (wrap_around_ (head_xpos ctx) (to_schar SNAKE_GAME_WIDTH)) ctx in
  set_head_ypos
    (wrap_around_ (head_ypos ctx) (to_schar SNAKE_GAME_HEIGHT)) ctx.

Definition snake_step (rnd : nat -> Z) (fuel : nat) (p : nat)
  (ctx : SnakeContext) : option (nat * SnakeContext) :=
  let dir_as_cell := next_dir ctx + 1 in
  let ctx := snake_step_tail ctx in
  let prev_xpos := head_xpos ctx in
  let prev_ypos := head_ypos ctx in
  let ctx := snake_step_head ctx in
  let ct := snake_cell_at ctx (head_xpos ctx) (head_ypos ctx) in
  if negb (ct =? SNAKE_CELL_NOTHING) && negb (ct =? SNAKE_CELL_FOOD) then
    snake_initialize rnd fuel p ctx
  else
    let ctx := put_cell_at_ ctx prev_xpos prev_ypos dir_as_cell in
    let ctx := put_cell_at_ ctx (head_xpos ctx) (head_ypos ctx) dir_as_cell in
    if ct =? SNAKE_CELL_FOOD then
      if are_cells_full_ ctx then snake_initialize rnd fuel p ctx
      else
        '(p1, ctx1) ← new_food_pos_ rnd fuel p ctx;
        let ctx1 :=
          set_inhibit_tail_step (to_schar (inhibit_tail_step ctx1 + 1)) ctx1 in
        Some (p1, set_occupied_cells (to_uint (occupied_cells ctx1 + 1)) ctx1)
    else Some (p, ctx).

(** ** The frame driver *)

(** The part of [AppState] that the update loop uses. *)
Record AppState : Set := mkAppState {
  snake_ctx : SnakeContext;
  last_step : Z
}.

(** The update loop of [SDL_AppIterate] (lines 317-321), where [now] is
    the value that [SDL_GetTicks] returned for this frame.  [n] bounds the
    number of iterations. *)
Fixpoint SDL_AppIterate (rnd : nat -> Z) (fuel : nat) (n : nat) (p : nat)
  (now : Z) (st : AppState) : option (nat * AppState) :=
  match n with
  | O => None
  | S n' =>
      if to_uint64 (now - last_step st) >=? STEP_RATE_IN_MILLISECONDS then
        '(p1, ctx1) ← snake_step rnd fuel p (snake_ctx st);
        SDL_AppIterate rnd fuel n' p1 now
          (mkAppState ctx1
             (to_uint64 (last_step st + STEP_RATE_IN_MILLISECONDS)))
      else Some (p, st)
  end.

(** [k] calls of [snake_step] in a row. *)
Fixpoint snake_steps (rnd : nat -> Z) (fuel : nat) (k : nat) (p : nat)
  (ctx : SnakeContext) : option (nat * SnakeContext) :=
  match k with
  | O => Some (p, ctx)
  | S k' =>
      '(p1, ctx1) ← snake_step rnd fuel p ctx;
      snake_steps rnd fuel k' p1 ctx1
  end.

(** ** Well-formed states *)

Definition in_grid (x y : Z) : Prop :=
  0 <= x < SNAKE_GAME_WIDTH /\ 0 <= y < SNAKE_GAME_HEIGHT.

Definition in_gridb (x y : Z) : bool :=
  (0 <=? x) && (x <? SNAKE_GAME_WIDTH) && (0 <=? y) && (y <? SNAKE_GAME_HEIGHT).

(** The array has its 162 bytes, each an [unsigned char]. *)
Definition cells_ok (l : list Z) : Prop :=
  length l = Z.to_nat CELLS_BYTES /\ Forall (fun b => 0 <= b < 256) l.

Definition is_schar (z : Z) : Prop := -128 <= z < 128.

(** What the engine maintains between calls: the array is whole, head and
    tail are cells of the grid, the pending direction is an enumerator,
    the inhibit counter is a positive [char] and the occupied-cell counter
    does not exceed the number of cells. *)
Record ctx_ok (c : SnakeContext) : Prop := mk_ctx_ok {
  ok_cells : cells_ok (cells c);
  ok_head : in_grid (head_xpos c) (head_ypos c);
  ok_tail : in_grid (tail_xpos c) (tail_ypos c);
  ok_dir : 0 <= next_dir c <= 3;
  ok_inhibit : 1 <= inhibit_tail_step c <= 127;
  ok_occupied : 0 <= occupied_cells c <= 432
}.

(** Bit [n] of the struct, counted from bit 0 of [cells[0]]. *)
Definition membit (c : SnakeContext) (n : Z) : bool :=
  Z.testbit (ctx_load c (n / 8)) (n mod 8).

(** All the cells of the grid, row by row. *)
Definition all_coords : list (Z * Z) :=
  flat_map (fun y => map (fun x => (Z.of_nat x, Z.of_nat y)) (seq 0 24))
    (seq 0 18).

Fixpoint count_where (f : Z * Z -> bool) (l : list (Z * Z)) : nat :=
  match l with
  | [] => O
  | q :: l' => ((if f q then 1 else 0) + count_where f l')%nat
  end.

(** Number of cells of the grid that hold the code [ct]. *)
Definition count_cells (ct : SnakeCell) (c : SnakeContext) : nat :=
  count_where (fun q => snake_cell_at c (fst q) (snd q) =? ct) all_coords.

(** Number of cells of the grid that are not [SNAKE_CELL_NOTHING]. *)
Definition count_used (c : SnakeContext) : nat :=
  count_where
    (fun q => negb (snake_cell_at c (fst q) (snd q) =? SNAKE_CELL_NOTHING))
    all_coords.

(** The cell drawn by attempt number [k] of a [new_food_pos_] loop that
    starts at call [p]. *)
Definition drawn (rnd : nat -> Z) (p k : nat) : Z * Z :=
  (to_schar (SDL_rand rnd (p + 2 * k) SNAKE_GAME_WIDTH),
   to_schar (SDL_rand rnd (S (p + 2 * k)) SNAKE_GAME_HEIGHT)).

(** From call [p] on, the generator draws every cell of the grid again
    and again. *)
Definition fair_from (rnd : nat -> Z) (p : nat) : Prop :=
  forall (j : nat) (x y : Z), in_grid x y ->
    exists k : nat, (j <= k)%nat /\ drawn rnd p k = (x, y).

(** A generator that scans the grid row by row: attempt number [k] of
    [new_food_pos_] draws the cell [(k mod 24, (k / 24) mod 18)]. *)
Definition scan_rnd (i : nat) : Z :=
  let k := Z.of_nat i / 2 in
  if Z.even (Z.of_nat i) then k mod 24 else (k / 24) mod 18.

(** A generator that draws the last cell of the grid every time:
    71 is 23 modulo 24 and 17 modulo 18. *)
Definition corner_rnd (i : nat) : Z := 71.

Definition zero_ctx : SnakeContext :=
  mkSnakeContext (replicate 162 0) 0 0 0 0 0 0 0.

(** ** Definitions used by the statements *)

(** Number of cells of the grid whose code satisfies [P]. *)
Definition count_code (P : Z -> bool) (c : SnakeContext) : nat :=
  count_where (fun q => P (snake_cell_at c (fst q) (snd q))) all_coords.

(** The state on entry to the food loop of [snake_initialize]; it does
    not depend on the state that [snake_initialize] was given. *)
Definition init_base : SnakeContext :=
  put_cell_at_ (mkSnakeContext (replicate 162 0) 12 9 12 9 0 4 3) 12 9
    SNAKE_CELL_SRIGHT.

(** The state of the food loop once [n] food cells have been placed. *)
Record food_inv (n : nat) (c : SnakeContext) : Prop := mk_food_inv {
  fi_cells : cells_ok (cells c);
  fi_head : head_xpos c = 12 /\ head_ypos c = 9;
  fi_tail : tail_xpos c = 12 /\ tail_ypos c = 9;
  fi_dir : next_dir c = 0;
  fi_inhibit : inhibit_tail_step c = 4;
  fi_occupied : occupied_cells c = 3 + Z.of_nat n;
  fi_body : snake_cell_at c 12 9 = SNAKE_CELL_SRIGHT;
  fi_food : count_cells SNAKE_CELL_FOOD c = n;
  fi_used : count_used c = S n;
  fi_rest : forall x y, in_grid x y -> (x, y) <> (12, 9) ->
      snake_cell_at c x y = SNAKE_CELL_NOTHING \/
      snake_cell_at c x y = SNAKE_CELL_FOOD
}.

(** The state that [snake_initialize] leaves. *)
Record init_post (c : SnakeContext) : Prop := mk_init_post {
  ip_head : head_xpos c = 12 /\ head_ypos c = 9;
  ip_tail : tail_xpos c = 12 /\ tail_ypos c = 9;
  ip_body : snake_cell_at c 12 9 = SNAKE_CELL_SRIGHT;
  ip_dir : next_dir c = dir_code SNAKE_DIR_RIGHT;
  ip_inhibit : inhibit_tail_step c = 4;
  ip_occupied : occupied_cells c = 7;
  ip_food : count_cells SNAKE_CELL_FOOD c = 4%nat;
  ip_rest : forall x y, in_grid x y -> (x, y) <> (12, 9) ->
      snake_cell_at c x y <> SNAKE_CELL_FOOD ->
      snake_cell_at c x y = SNAKE_CELL_NOTHING
}.

(** The unit vector of a direction code; the null vector for anything
    that is not an enumerator. *)
Definition dir_dx (d : Z) : Z :=
  if d =? 0 then 1 else if d =? 2 then -1 else 0.
Definition dir_dy (d : Z) : Z :=
  if d =? 1 then -1 else if d =? 3 then 1 else 0.

(** The state of [snake_step] at line 248, after tail and head have
    moved. *)
Definition step_moved (c : SnakeContext) : SnakeContext :=
  snake_step_head (snake_step_tail c).

(** The cell that [snake_step] finds at the new head position. *)
Definition step_head_cell (c : SnakeContext) : SnakeCell :=
  let m := step_moved c in snake_cell_at m (head_xpos m) (head_ypos m).

(** The state of [snake_step] at line 256, after the two writes of the
    body cell. *)
Definition step_written (c : SnakeContext) : SnakeContext :=
  let t := snake_step_tail c in
  let w :=
    put_cell_at_ (step_moved c) (head_xpos t) (head_ypos t) (next_dir c + 1) in
  put_cell_at_ w (head_xpos w) (head_ypos w) (next_dir c + 1).

(** The body cell that faces against [d]. *)
Definition opposite_cell (d : SnakeDirection) : SnakeCell :=
  match d with
  | SNAKE_DIR_RIGHT => SNAKE_CELL_SLEFT
  | SNAKE_DIR_UP => SNAKE_CELL_SDOWN
  | SNAKE_DIR_LEFT => SNAKE_CELL_SRIGHT
  | SNAKE_DIR_DOWN => SNAKE_CELL_SUP
  end.

(** The states that the engine can be in: after [snake_initialize] (at
    start-up or on the restart key), after [snake_redir], after
    [snake_step]; with the number of draws made so far. *)
Inductive reachable (rnd : nat -> Z) : nat -> SnakeContext -> Prop :=
  | reach_init fuel p c0 p' c' :
      snake_initialize rnd fuel p c0 = Some (p', c') -> reachable rnd p' c'
  | reach_redir p c d :
      reachable rnd p c -> reachable rnd p (snake_redir c d)
  | reach_step fuel p c p' c' :
      reachable rnd p c -> snake_step rnd fuel p c = Some (p', c') ->
      reachable rnd p' c'.

(** The four body codes. *)
Definition is_body (ct : SnakeCell) : bool :=
  (SNAKE_CELL_SRIGHT <=? ct) && (ct <=? SNAKE_CELL_SDOWN).

(** A snake about to run into a body cell at (13, 9), and a snake about to
    eat at (13, 9) with the counter at 432. *)
Definition collide_ctx : SnakeContext :=
  put_cell_at_ init_base 13 9 SNAKE_CELL_SUP.
Definition win_ctx : SnakeContext :=
  set_occupied_cells 432 (put_cell_at_ init_base 13 9 SNAKE_CELL_FOOD).

(** The initial snake with food in front of its head. *)
Definition food_ctx : SnakeContext :=
  put_cell_at_ init_base 13 9 SNAKE_CELL_FOOD.

(** The two byte offsets that [snake_cell_at] and [put_cell_at_] copy for
    the cell [(x, y)]: [shift / 8] and the next one. *)
Definition window_bytes (x y : Z) : Z * Z :=
  let shift := to_int (SHIFT x y) in (Z.quot shift 8, Z.quot shift 8 + 1).

(** The initial snake with its head on the right edge, and with its head
    on the top edge heading up. *)
Definition edge_ctx : SnakeContext := set_head_xpos 23 init_base.
Definition top_ctx : SnakeContext :=
  set_next_dir (dir_code SNAKE_DIR_UP) (set_head_ypos 0 init_base).

(** ** The snake as a path on the grid *)

(** The code held by the cell [q]. *)
Definition cell_of (c : SnakeContext) (q : Z * Z) : SnakeCell :=
  snake_cell_at c (fst q) (snd q).

(** The cell next to [q] in the direction of code [d], on the torus. *)
Definition move (q : Z * Z) (d : Z) : Z * Z :=
  ((fst q + dir_dx d) mod SNAKE_GAME_WIDTH,
   (snd q + dir_dy d) mod SNAKE_GAME_HEIGHT).

(** Every cell of [l] holds a body code, and the code of each cell but the
    last leads to the next cell of [l]. *)
Fixpoint chain (c : SnakeContext) (l : list (Z * Z)) : Prop :=
  match l with
  | [] => True
  | q :: l' =>
      is_body (cell_of c q) = true /\
      match l' with
      | [] => True
      | q' :: _ => q' = move q (cell_of c q - 1)
      end /\
      chain c l'
  end.

(** The body code that faces against the direction of code [d]. *)
Definition opposite_code (d : Z) : SnakeCell := (d + 2) mod 4 + 1.

(** [body] lists the cells of the snake from the tail to the head: they
    are distinct cells of the grid that form a chain, and every other
    cell of the grid is empty or food. *)
Record board_inv (c : SnakeContext) (body : list (Z * Z)) : Prop :=
  mk_board_inv {
  bi_cells : cells_ok (cells c);
  bi_tail : head body = Some (tail_xpos c, tail_ypos c);
  bi_head : last body = Some (head_xpos c, head_ypos c);
  bi_nodup : NoDup body;
  bi_grid : forall q, q ∈ body -> in_grid (fst q) (snd q);
  bi_chain : chain c body;
  bi_rest : forall q, in_grid (fst q) (snd q) -> q ∉ body ->
      cell_of c q = SNAKE_CELL_NOTHING \/ cell_of c q = SNAKE_CELL_FOOD
}.

(** The state of the game between two calls of the engine. *)
Record snake_inv (c : SnakeContext) (body : list (Z * Z)) : Prop :=
  mk_snake_inv {
  si_ok : ctx_ok c;
  si_board : board_inv c body;
  si_food : count_cells SNAKE_CELL_FOOD c = 4%nat;
  si_len : Z.of_nat (length body) + inhibit_tail_step c + 2 = occupied_cells c;
  si_occ : 7 <= occupied_cells c;
  si_dir : snake_cell_at c (head_xpos c) (head_ypos c)
           <> opposite_code (next_dir c)
}.

(** * Properties *)

(** ** Scalars and bits *)

Lemma to_schar_id z : is_schar z -> to_schar z = z.
Proof. unfold is_schar, to_schar. intros H. rewrite Z.mod_small; lia. Qed.

Lemma to_schar_range z : is_schar (to_schar z).
Proof.
  unfold is_schar, to_schar.
  pose proof (Z.mod_pos_bound (z + 128) 256). lia.
Qed.

Lemma to_uchar_schar z : 0 <= z < 256 -> to_uchar (to_schar z) = z.
Proof.
  unfold to_uchar, to_schar. intros H.
  destruct (Z_lt_le_dec z 128).
  - rewrite (Z.mod_small (z + 128)) by lia. rewrite Z.mod_small; lia.
  - replace (z + 128) with (z - 128 + 1 * 256) by lia.
    rewrite Z.mod_add by lia. rewrite (Z.mod_small (z - 128)) by lia.
    replace (z - 128 - 128) with (z + (-1) * 256) by lia.
    rewrite Z.mod_add by lia. rewrite Z.mod_small; lia.
Qed.

Lemma to_schar_uchar z : is_schar z -> to_schar (to_uchar z) = z.
Proof.
  unfold to_uchar, to_schar, is_schar. intros H.
  rewrite Zplus_mod_idemp_l. rewrite Z.mod_small; lia.
Qed.

Lemma testbit_7 i : Z.testbit 7 i = (0 <=? i) && (i <? 3).
Proof.
  destruct (Z_lt_le_dec i 0) as [Hn | Hp].
  - rewrite Z.testbit_neg_r by lia.
    destruct (Z.leb_spec 0 i); [lia | reflexivity].
  - destruct (Z_lt_le_dec i 3) as [Hl | Hg].
    + assert (i = 0 \/ i = 1 \/ i = 2) as [-> | [-> | ->]] by lia;
        reflexivity.
    + rewrite Z.bits_above_log2 by (simpl; lia).
      destruct (Z.ltb_spec i 3); [lia |]. apply eq_sym, andb_false_r.
Qed.

Lemma testbit_byte_high b i : 0 <= b < 256 -> 8 <= i -> Z.testbit b i = false.
Proof.
  intros Hb Hi. destruct (Z.eq_dec b 0) as [-> | Hz].
  - apply Z.bits_0.
  - apply Z.bits_above_log2; [lia |].
    assert (Z.log2 b < 8) by (apply Z.log2_lt_pow2; simpl; lia). lia.
Qed.

Lemma byte_eq_bits a b :
  0 <= a < 256 -> 0 <= b < 256 ->
  (forall i, 0 <= i < 8 -> Z.testbit a i = Z.testbit b i) -> a = b.
Proof.
  intros Ha Hb H. apply Z.bits_inj'. intros i Hi.
  destruct (Z_lt_le_dec i 8).
  - apply H. lia.
  - rewrite !testbit_byte_high by lia. reflexivity.
Qed.

(** Bits of a little-endian pair of bytes. *)
Lemma testbit_pair lo hi j :
  0 <= lo < 256 -> 0 <= hi < 256 -> 0 <= j ->
  Z.testbit (lo + 256 * hi) j =
  if j <? 8 then Z.testbit lo j else Z.testbit hi (j - 8).
Proof.
  intros Hlo Hhi Hj.
  replace (lo + 256 * hi) with (lo + hi * 2 ^ 8) by lia.
  destruct (Z.ltb_spec j 8).
  - rewrite <- (Z.mod_pow2_bits_low (lo + hi * 2 ^ 8) 8 j) by lia.
    rewrite Z.mod_add by lia. rewrite Z.mod_small by (simpl; lia).
    reflexivity.
  - replace (Z.testbit (lo + hi * 2 ^ 8) j)
      with (Z.testbit ((lo + hi * 2 ^ 8) / 2 ^ 8) (j - 8))
      by (rewrite Z.div_pow2_bits by lia; f_equal; lia).
    rewrite Z.div_add by lia. rewrite Z.div_small by (simpl; lia).
    reflexivity.
Qed.

(** ** Addressing *)

Lemma shift_in_grid x y :
  in_grid x y -> to_int (SHIFT x y) = (x + y * 24) * 3.
Proof.
  unfold in_grid, to_int, SHIFT, to_uint, SNAKE_GAME_WIDTH, SNAKE_GAME_HEIGHT,
    SNAKE_CELL_MAX_BITS.
  intros H. rewrite (Z.mod_small ((x + y * 24) * 3)) by lia.
  rewrite Z.mod_small; lia.
Qed.

(** Byte offset and bit offset of the window of a cell of the grid. *)
Lemma window_in_struct x y :
  in_grid x y ->
  let s := to_int (SHIFT x y) in
  Z.quot s 8 = s / 8 /\ Z.rem s 8 = s mod 8 /\
  0 <= s / 8 <= 161 /\ 0 <= s mod 8 <= 7 /\ 0 <= s /\ s + 3 <= 1296.
Proof.
  intros H s. subst s. rewrite (shift_in_grid _ _ H).
  unfold in_grid, SNAKE_GAME_WIDTH, SNAKE_GAME_HEIGHT in H.
  assert (Hs : 0 <= (x + y * 24) * 3 <= 1293) by lia.
  split; [apply Z.quot_div_nonneg; lia |].
  split; [apply Z.rem_mod_nonneg; lia |].
  pose proof (Z.mod_pos_bound ((x + y * 24) * 3) 8).
  pose proof (Z.div_mod ((x + y * 24) * 3) 8).
  lia.
Qed.

Lemma in_gridb_spec x y : in_gridb x y = true <-> in_grid x y.
Proof.
  unfold in_gridb, in_grid. rewrite !andb_true_iff.
  rewrite !Z.leb_le, !Z.ltb_lt. tauto.
Qed.

(** ** Bytes of the struct *)

Lemma ctx_load_range c off : cells_ok (cells c) -> 0 <= ctx_load c off < 256.
Proof.
  intros [_ Hall]. unfold ctx_load.
  destruct ((0 <=? off) && (off <? CELLS_BYTES)).
  - destruct (cells c !! Z.to_nat off) as [b |] eqn:Hb; simpl; [| lia].
    exact (proj1 (Forall_lookup _ _) Hall _ _ Hb).
  - destruct (off =? CELLS_BYTES); [| lia].
    unfold to_uchar. apply Z.mod_pos_bound. lia.
Qed.

Lemma ctx_store_cells_ok c k b :
  cells_ok (cells c) -> 0 <= b < 256 -> cells_ok (cells (ctx_store c k b)).
Proof.
  intros [Hlen Hall] Hb. unfold ctx_store.
  destruct ((0 <=? k) && (k <? CELLS_BYTES)); simpl.
  - split; [rewrite length_insert; exact Hlen |].
    apply Forall_insert; assumption.
  - destruct (k =? CELLS_BYTES); split; assumption.
Qed.

Lemma ctx_load_store c k b off :
  cells_ok (cells c) -> 0 <= k <= 162 -> 0 <= b < 256 ->
  ctx_load (ctx_store c k b) off = if off =? k then b else ctx_load c off.
Proof.
  intros [Hlen _] Hk Hb. unfold ctx_load, ctx_store.
  change CELLS_BYTES with 162 in *.
  destruct (Z.ltb_spec k 162) as [Hlt | Hge].
  - replace (0 <=? k) with true by (symmetry; apply Z.leb_le; lia). simpl.
    destruct ((0 <=? off) && (off <? 162)) eqn:Hoff.
    + apply andb_true_iff in Hoff as [H0 H1].
      apply Z.leb_le in H0. apply Z.ltb_lt in H1.
      destruct (Z.eqb_spec off k) as [-> | Hne].
      * rewrite list_lookup_insert_eq by lia. reflexivity.
      * rewrite list_lookup_insert_ne by lia. reflexivity.
    + destruct (Z.eqb_spec off k) as [-> | Hne]; [| reflexivity].
      apply andb_false_iff in Hoff as [H0 | H1].
      * apply Z.leb_gt in H0. lia.
      * apply Z.ltb_ge in H1. lia.
  - assert (k = 162) as -> by lia.
    rewrite andb_false_r. simpl.
    destruct ((0 <=? off) && (off <? 162)) eqn:Hoff.
    + apply andb_true_iff in Hoff as [H0 H1]. apply Z.ltb_lt in H1.
      destruct (Z.eqb_spec off 162); [lia | reflexivity].
    + destruct (Z.eqb_spec off 162); [| reflexivity].
      apply to_uchar_schar. exact Hb.
Qed.

(** A store leaves every member but [cells] and [head_xpos] alone. *)
Lemma ctx_store_members c k b :
  let c' := ctx_store c k b in
  head_ypos c' = head_ypos c /\ tail_xpos c' = tail_xpos c /\
  tail_ypos c' = tail_ypos c /\ next_dir c' = next_dir c /\
  inhibit_tail_step c' = inhibit_tail_step c /\
  occupied_cells c' = occupied_cells c.
Proof.
  unfold ctx_store.
  destruct ((0 <=? k) && (k <? CELLS_BYTES)); [simpl; tauto |].
  destruct (k =? CELLS_BYTES); simpl; tauto.
Qed.

Lemma ctx_store_head_xpos c k b :
  head_xpos (ctx_store c k b) =
  if k =? CELLS_BYTES then to_schar b else head_xpos c.
Proof.
  unfold ctx_store. change CELLS_BYTES with 162.
  destruct (Z.eqb_spec k 162) as [-> | Hne]; [reflexivity |].
  destruct ((0 <=? k) && (k <? 162)); reflexivity.
Qed.

Lemma load_range_bits c k j :
  cells_ok (cells c) -> 0 <= j < 16 ->
  Z.testbit (load_range c k) j = membit c (8 * k + j).
Proof.
  intros Hok Hj. unfold load_range, membit.
  rewrite testbit_pair by (try apply ctx_load_range; try assumption; lia).
  destruct (Z.ltb_spec j 8).
  - replace ((8 * k + j) / 8) with k by (apply Z.div_unique with j; lia).
    replace ((8 * k + j) mod 8) with j by (apply Z.mod_unique with k; lia).
    reflexivity.
  - replace ((8 * k + j) / 8) with (k + 1)
      by (apply Z.div_unique with (j - 8); lia).
    replace ((8 * k + j) mod 8) with (j - 8)
      by (apply Z.mod_unique with (k + 1); lia).
    reflexivity.
Qed.

Lemma store_range_bits c k r n :
  cells_ok (cells c) -> 0 <= k <= 161 -> 0 <= r < 65536 -> 0 <= n ->
  membit (store_range c k r) n =
  if (8 * k <=? n) && (n <? 8 * k + 16) then Z.testbit r (n - 8 * k)
  else membit c n.
Proof.
  intros Hok Hk Hr Hn. unfold store_range, membit.
  assert (Hlo : 0 <= r mod 256 < 256) by (apply Z.mod_pos_bound; lia).
  assert (Hhi : 0 <= r / 256 < 256)
    by (split; [apply Z.div_pos; lia | apply Z.div_lt_upper_bound; lia]).
  rewrite ctx_load_store
    by (try apply ctx_store_cells_ok; try assumption; lia).
  rewrite ctx_load_store by (try assumption; lia).
  pose proof (Z.div_mod n 8 ltac:(lia)) as Hdm.
  pose proof (Z.mod_pos_bound n 8 ltac:(lia)) as Hm.
  assert (Hr' : r = r mod 256 + 256 * (r / 256))
    by (pose proof (Z.div_mod r 256); lia).
  destruct (Z.eqb_spec (n / 8) (k + 1)) as [E1 | N1].
  - replace ((8 * k <=? n) && (n <? 8 * k + 16)) with true
      by (symmetry; apply andb_true_iff; split;
          [apply Z.leb_le | apply Z.ltb_lt]; lia).
    rewrite Hr' at 2. rewrite testbit_pair by lia.
    destruct (Z.ltb_spec (n - 8 * k) 8); [lia |].
    f_equal. lia.
  - destruct (Z.eqb_spec (n / 8) k) as [E0 | N0].
    + replace ((8 * k <=? n) && (n <? 8 * k + 16)) with true
        by (symmetry; apply andb_true_iff; split;
            [apply Z.leb_le | apply Z.ltb_lt]; lia).
      rewrite Hr' at 2. rewrite testbit_pair by lia.
      destruct (Z.ltb_spec (n - 8 * k) 8); [| lia].
      f_equal. lia.
    + replace ((8 * k <=? n) && (n <? 8 * k + 16)) with false;
        [reflexivity |].
      symmetry. apply andb_false_iff.
      destruct (Z_lt_le_dec n (8 * k));
        [left; apply Z.leb_gt | right; apply Z.ltb_ge]; lia.
Qed.

(** ** Reading and writing one cell *)

(** The two assignments to [range] in [put_cell_at_], bit by bit. *)
Lemma put_range_bits r a ct j :
  0 <= a <= 7 -> 0 <= j < 16 ->
  Z.testbit
    (to_ushort
       (Z.lor
          (to_ushort (Z.land r (to_uint (Z.lnot (Z.shiftl THREE_BITS a)))))
          (Z.shiftl (Z.land ct THREE_BITS) a))) j =
  if (a <=? j) && (j <? a + 3) then Z.testbit ct (j - a) else Z.testbit r j.
Proof.
  intros Ha Hj. unfold to_ushort, to_uint, THREE_BITS.
  change 65536 with (2 ^ 16). change 4294967296 with (2 ^ 32).
  rewrite Z.mod_pow2_bits_low by lia.
  rewrite Z.lor_spec.
  rewrite Z.mod_pow2_bits_low by lia.
  rewrite Z.land_spec.
  rewrite Z.mod_pow2_bits_low by lia.
  rewrite Z.lnot_spec by lia.
  rewrite !Z.shiftl_spec by lia.
  rewrite Z.land_spec, testbit_7.
  destruct (Z.leb_spec a j); destruct (Z.ltb_spec j (a + 3));
    destruct (Z.leb_spec 0 (j - a)); destruct (Z.ltb_spec (j - a) 3);
    try lia; simpl;
    rewrite ?andb_true_r, ?andb_false_r, ?orb_false_r; reflexivity.
Qed.

Lemma snake_cell_at_bits c x y i :
  cells_ok (cells c) -> in_grid x y -> 0 <= i ->
  Z.testbit (snake_cell_at c x y) i =
  (i <? 3) && membit c ((x + y * 24) * 3 + i).
Proof.
  intros Hok Hg Hi. unfold snake_cell_at.
  destruct (window_in_struct x y Hg) as (Hq & Hr & Hk & Ha & Hs0 & Hs).
  rewrite Hq, Hr. rewrite (shift_in_grid x y Hg) in *.
  set (s := (x + y * 24) * 3) in *. clearbody s. clear Hq Hr.
  pose proof (Z.div_mod s 8 ltac:(lia)) as Hdm.
  set (k := s / 8) in *. set (a := s mod 8) in *. clearbody k a.
  unfold THREE_BITS. rewrite Z.land_spec, testbit_7.
  rewrite Z.shiftr_spec by lia.
  destruct (Z.ltb_spec i 3).
  - rewrite load_range_bits by (try assumption; lia).
    replace (8 * k + (i + a)) with (s + i) by lia.
    replace (0 <=? i) with true by (symmetry; apply Z.leb_le; lia).
    simpl. apply andb_true_r.
  - rewrite andb_false_r. apply andb_false_r.
Qed.

Lemma snake_cell_at_range c x y : 0 <= snake_cell_at c x y <= 7.
Proof.
  unfold snake_cell_at, THREE_BITS.
  set (v := Z.shiftr _ _). clearbody v.
  change (Z.land v 7) with (Z.land v (Z.ones 3)).
  rewrite Z.land_ones by lia. change (2 ^ 3) with 8.
  pose proof (Z.mod_pos_bound v 8 ltac:(lia)). lia.
Qed.

Lemma put_cell_cells_ok c x y ct :
  cells_ok (cells c) -> cells_ok (cells (put_cell_at_ c x y ct)).
Proof.
  intros Hok. unfold put_cell_at_, store_range.
  set (r := to_ushort (Z.lor _ _)).
  assert (Hr : 0 <= r < 65536) by (apply Z.mod_pos_bound; lia).
  apply ctx_store_cells_ok.
  - apply ctx_store_cells_ok; [assumption | apply Z.mod_pos_bound; lia].
  - split; [apply Z.div_pos; lia | apply Z.div_lt_upper_bound; lia].
Qed.

Lemma put_cell_members c x y ct :
  let c' := put_cell_at_ c x y ct in
  head_ypos c' = head_ypos c /\ tail_xpos c' = tail_xpos c /\
  tail_ypos c' = tail_ypos c /\ next_dir c' = next_dir c /\
  inhibit_tail_step c' = inhibit_tail_step c /\
  occupied_cells c' = occupied_cells c.
Proof.
  unfold put_cell_at_, store_range.
  set (k := Z.quot _ 8). set (r := to_ushort (Z.lor _ _)).
  pose proof (ctx_store_members (ctx_store c k (r mod 256)) (k + 1) (r / 256))
    as H1.
  pose proof (ctx_store_members c k (r mod 256)) as H2.
  simpl in *. intuition congruence.
Qed.

Lemma put_cell_bits c x y ct n :
  cells_ok (cells c) -> in_grid x y -> 0 <= n ->
  membit (put_cell_at_ c x y ct) n =
  let s := (x + y * 24) * 3 in
  if (s <=? n) && (n <? s + 3) then Z.testbit ct (n - s) else membit c n.
Proof.
  intros Hok Hg Hn. unfold put_cell_at_.
  destruct (window_in_struct x y Hg) as (Hq & Hr & Hk & Ha & Hs0 & Hs).
  rewrite Hq, Hr. rewrite (shift_in_grid x y Hg) in *.
  set (s := (x + y * 24) * 3) in *. clearbody s. clear Hq Hr. simpl.
  pose proof (Z.div_mod s 8 ltac:(lia)) as Hdm.
  set (k := s / 8) in *. set (a := s mod 8) in *. clearbody k a.
  rewrite store_range_bits
    by (try assumption; try lia; apply Z.mod_pos_bound; lia).
  destruct (Z.leb_spec (8 * k) n); destruct (Z.ltb_spec n (8 * k + 16));
    simpl.
  - rewrite put_range_bits by lia.
    rewrite load_range_bits by (try assumption; lia).
    replace (8 * k + (n - 8 * k)) with n by lia.
    replace (n - 8 * k - a) with (n - s) by lia.
    destruct (Z.leb_spec a (n - 8 * k));
      destruct (Z.ltb_spec (n - 8 * k) (a + 3));
      destruct (Z.leb_spec s n); destruct (Z.ltb_spec n (s + 3));
      try lia; reflexivity.
  - destruct (Z.leb_spec s n); destruct (Z.ltb_spec n (s + 3));
      try lia; reflexivity.
  - destruct (Z.leb_spec s n); destruct (Z.ltb_spec n (s + 3));
      try lia; reflexivity.
  - lia.
Qed.

(** The write of a cell of the grid gives [head_xpos] back its value, also
    when the window of the cell covers it. *)
Lemma put_cell_head_xpos c x y ct :
  cells_ok (cells c) -> in_grid x y -> is_schar (head_xpos c) ->
  head_xpos (put_cell_at_ c x y ct) = head_xpos c.
Proof.
  intros Hok Hg Hc.
  pose proof (put_cell_bits c x y ct) as Hbits.
  pose proof (put_cell_cells_ok c x y ct Hok) as Hok'.
  revert Hbits Hok'. unfold put_cell_at_.
  destruct (window_in_struct x y Hg) as (Hq & Hr & Hk & Ha & Hs0 & Hs).
  rewrite Hq, Hr. rewrite (shift_in_grid x y Hg) in *.
  set (s := (x + y * 24) * 3) in *. clearbody s. clear Hq Hr.
  pose proof (Z.div_mod s 8 ltac:(lia)) as Hdm.
  set (k := s / 8) in *. set (a := s mod 8) in *. clearbody k a.
  set (r := to_ushort (Z.lor _ _)). intros Hbits Hok'.
  assert (Hr' : 0 <= r < 65536) by (apply Z.mod_pos_bound; lia).
  assert (Hlo : 0 <= r mod 256 < 256) by (apply Z.mod_pos_bound; lia).
  assert (Hhi : 0 <= r / 256 < 256)
    by (split; [apply Z.div_pos; lia | apply Z.div_lt_upper_bound; lia]).
  clearbody r.
  unfold store_range in *. rewrite !ctx_store_head_xpos.
  change CELLS_BYTES with 162.
  destruct (Z.eqb_spec (k + 1) 162) as [E | N].
  - rewrite <- (to_schar_uchar (head_xpos c) Hc). f_equal.
    apply byte_eq_bits; [assumption | apply Z.mod_pos_bound; lia |].
    intros i Hi.
    specialize (Hbits (1296 + i) Hok Hg ltac:(lia)). simpl in Hbits.
    replace ((s <=? 1296 + i) && (1296 + i <? s + 3)) with false in Hbits
      by (symmetry; apply andb_false_iff; right; apply Z.ltb_ge; lia).
    unfold membit in Hbits.
    replace ((1296 + i) / 8) with 162 in Hbits
      by (apply Z.div_unique with i; lia).
    replace ((1296 + i) mod 8) with i in Hbits
      by (apply Z.mod_unique with 162; lia).
    rewrite ctx_load_store in Hbits
      by (try apply ctx_store_cells_ok; try assumption; lia).
    rewrite E in Hbits. simpl in Hbits. rewrite Hbits.
    unfold ctx_load. reflexivity.
  - destruct (Z.eqb_spec k 162); [lia | reflexivity].
Qed.

(** Reading back the cell that was written. *)
Lemma cell_at_put_same c x y ct :
  cells_ok (cells c) -> in_grid x y ->
  snake_cell_at (put_cell_at_ c x y ct) x y = Z.land ct THREE_BITS.
Proof.
  intros Hok Hg. apply Z.bits_inj'. intros i Hi.
  rewrite snake_cell_at_bits
    by (try apply put_cell_cells_ok; assumption).
  unfold THREE_BITS. rewrite Z.land_spec, testbit_7.
  destruct (Z.ltb_spec i 3); simpl.
  - rewrite put_cell_bits by (try assumption;
      unfold in_grid, SNAKE_GAME_WIDTH, SNAKE_GAME_HEIGHT in Hg; lia).
    simpl. set (s := (x + y * 24) * 3).
    destruct (Z.leb_spec s (s + i)); destruct (Z.ltb_spec (s + i) (s + 3));
      try lia; simpl.
    replace (s + i - s) with i by lia.
    destruct (Z.leb_spec 0 i); [| lia]. symmetry. apply andb_true_r.
  - symmetry. rewrite andb_false_r. apply andb_false_r.
Qed.

(** Reading any other cell of the grid. *)
Lemma cell_at_put_other c x y ct x' y' :
  cells_ok (cells c) -> in_grid x y -> in_grid x' y' -> (x', y') <> (x, y) ->
  snake_cell_at (put_cell_at_ c x y ct) x' y' = snake_cell_at c x' y'.
Proof.
  intros Hok Hg Hg' Hne. apply Z.bits_inj'. intros i Hi.
  rewrite !snake_cell_at_bits
    by (try apply put_cell_cells_ok; assumption).
  destruct (Z.ltb_spec i 3); simpl; [| reflexivity].
  unfold in_grid, SNAKE_GAME_WIDTH, SNAKE_GAME_HEIGHT in Hg, Hg'.
  rewrite put_cell_bits
    by (try assumption; unfold in_grid, SNAKE_GAME_WIDTH, SNAKE_GAME_HEIGHT;
        lia).
  simpl.
  assert (x' + y' * 24 <> x + y * 24).
  { intros E. apply Hne. assert (y' = y) by lia. f_equal; lia. }
  destruct (Z.leb_spec ((x + y * 24) * 3) ((x' + y' * 24) * 3 + i));
    destruct (Z.ltb_spec ((x' + y' * 24) * 3 + i) ((x + y * 24) * 3 + 3));
    try lia; reflexivity.
Qed.

(** The write of a cell of the grid leaves every scalar member alone. *)
Lemma put_cell_scalars c x y ct :
  cells_ok (cells c) -> in_grid x y -> is_schar (head_xpos c) ->
  let c' := put_cell_at_ c x y ct in
  head_xpos c' = head_xpos c /\ head_ypos c' = head_ypos c /\
  tail_xpos c' = tail_xpos c /\ tail_ypos c' = tail_ypos c /\
  next_dir c' = next_dir c /\
  inhibit_tail_step c' = inhibit_tail_step c /\
  occupied_cells c' = occupied_cells c.
Proof.
  intros Hok Hg Hc. split; [apply put_cell_head_xpos; assumption |].
  apply put_cell_members.
Qed.

(** ** Counting cells *)

Lemma in_all_coords x y : in_grid x y <-> (x, y) ∈ all_coords.
Proof.
  rewrite list_elem_of_In. unfold all_coords, in_grid, SNAKE_GAME_WIDTH,
    SNAKE_GAME_HEIGHT. rewrite in_flat_map. split.
  - intros [Hx Hy]. exists (Z.to_nat y). split; [apply in_seq; lia |].
    apply in_map_iff. exists (Z.to_nat x). split; [| apply in_seq; lia].
    f_equal; lia.
  - intros (j & Hj & Hin). apply in_map_iff in Hin as (i & E & Hi).
    apply in_seq in Hj, Hi. inversion E. lia.
Qed.

Lemma all_coords_NoDup : NoDup all_coords.
Proof. apply (bool_decide_eq_true_1 _). vm_compute. reflexivity. Qed.

Lemma all_coords_length : length all_coords = 432%nat.
Proof. vm_compute. reflexivity. Qed.

Lemma count_where_app f l1 l2 :
  count_where f (l1 ++ l2) = (count_where f l1 + count_where f l2)%nat.
Proof. induction l1 as [| q l1 IH]; simpl; [reflexivity | lia]. Qed.

Lemma count_where_ext f g l :
  (forall q, q ∈ l -> f q = g q) -> count_where f l = count_where g l.
Proof.
  induction l as [| q l IH]; intros H; simpl; [reflexivity |].
  rewrite (H q) by apply list_elem_of_here.
  rewrite IH; [reflexivity |].
  intros q' Hq'. apply H. apply list_elem_of_further. exact Hq'.
Qed.

Lemma count_where_le f l : (count_where f l <= length l)%nat.
Proof. induction l as [| q l IH]; simpl; [lia | destruct (f q); lia]. Qed.

(** A list that is not counted in full has an element that fails. *)
Lemma count_where_missing f l :
  (count_where f l < length l)%nat -> exists q, q ∈ l /\ f q = false.
Proof.
  induction l as [| q l IH]; simpl; [lia |].
  destruct (f q) eqn:Hq; intros H.
  - destruct IH as (q' & Hin & Hf); [lia |].
    exists q'. split; [apply list_elem_of_further; exact Hin | exact Hf].
  - exists q. split; [apply list_elem_of_here | exact Hq].
Qed.

(** Changing what [f] says of one element of a duplicate-free list. *)
Lemma count_where_update f g l q0 :
  NoDup l -> q0 ∈ l -> (forall q, q ∈ l -> q <> q0 -> g q = f q) ->
  (count_where g l + (if f q0 then 1 else 0) =
   count_where f l + (if g q0 then 1 else 0))%nat.
Proof.
  intros Hnd Hin Hext.
  destruct (list_elem_of_split l q0 Hin) as (l1 & l2 & ->).
  apply NoDup_app in Hnd as (_ & Hdis & Hnd2).
  apply NoDup_cons in Hnd2 as [Hq2 _].
  rewrite !count_where_app. simpl.
  rewrite (count_where_ext g f l1).
  - rewrite (count_where_ext g f l2); [lia |].
    intros q Hq. apply Hext.
    + apply elem_of_app. right. apply list_elem_of_further. exact Hq.
    + intros ->. contradiction.
  - intros q Hq. apply Hext.
    + apply elem_of_app. left. exact Hq.
    + intros ->. apply (Hdis q0 Hq). apply list_elem_of_here.
Qed.

(** Effect of one write on the number of cells that satisfy [P]. *)
Lemma count_put (P : Z -> bool) c x y ct :
  cells_ok (cells c) -> in_grid x y ->
  (count_code P (put_cell_at_ c x y ct) +
     (if P (snake_cell_at c x y) then 1 else 0) =
   count_code P c + (if P (Z.land ct THREE_BITS) then 1 else 0))%nat.
Proof.
  intros Hok Hg. unfold count_code.
  rewrite <- (cell_at_put_same c x y ct Hok Hg).
  apply (count_where_update
           (fun q => P (snake_cell_at c (fst q) (snd q)))
           (fun q => P (snake_cell_at (put_cell_at_ c x y ct) (fst q) (snd q)))
           all_coords (x, y)).
  - apply all_coords_NoDup.
  - apply in_all_coords. exact Hg.
  - intros [x' y'] Hin Hne. cbn [fst snd]. f_equal.
    apply cell_at_put_other; try assumption.
    apply in_all_coords. exact Hin.
Qed.

(** A grid that is not full has an empty cell. *)
Lemma empty_cell_exists c :
  (count_used c < 432)%nat ->
  exists x y, in_grid x y /\ snake_cell_at c x y = SNAKE_CELL_NOTHING.
Proof.
  intros H. unfold count_used in H.
  rewrite <- all_coords_length in H.
  apply count_where_missing in H as ([x y] & Hin & Hf).
  exists x, y. split; [apply in_all_coords; exact Hin |].
  cbn [fst snd] in Hf. apply negb_false_iff in Hf. apply Z.eqb_eq in Hf. exact Hf.
Qed.

Lemma count_used_put c x y ct :
  cells_ok (cells c) -> in_grid x y ->
  (count_used (put_cell_at_ c x y ct) <= count_used c + 1)%nat.
Proof.
  intros Hok Hg.
  pose proof (count_put (fun v => negb (v =? SNAKE_CELL_NOTHING)) c x y ct
                Hok Hg) as H.
  unfold count_code in H. unfold count_used.
  destruct (negb (snake_cell_at c x y =? SNAKE_CELL_NOTHING));
    destruct (negb (Z.land ct THREE_BITS =? SNAKE_CELL_NOTHING)); lia.
Qed.

(** Inside the grid a cell is a function of the array alone. *)
Lemma membit_cells c n :
  0 <= n < 1296 ->
  membit c n = Z.testbit (default 0 (cells c !! Z.to_nat (n / 8))) (n mod 8).
Proof.
  intros Hn. unfold membit, ctx_load. change CELLS_BYTES with 162.
  assert (0 <= n / 8 < 162)
    by (split; [apply Z.div_pos; lia | apply Z.div_lt_upper_bound; lia]).
  destruct (Z.leb_spec 0 (n / 8)); [| lia].
  destruct (Z.ltb_spec (n / 8) 162); [| lia]. reflexivity.
Qed.

Lemma cell_at_cells c1 c2 x y :
  cells c1 = cells c2 -> cells_ok (cells c1) -> in_grid x y ->
  snake_cell_at c1 x y = snake_cell_at c2 x y.
Proof.
  intros E Hok Hg. apply Z.bits_inj'. intros i Hi.
  rewrite !snake_cell_at_bits by (try rewrite <- E; assumption).
  destruct (Z.ltb_spec i 3); [| reflexivity]. simpl.
  unfold in_grid, SNAKE_GAME_WIDTH, SNAKE_GAME_HEIGHT in Hg.
  rewrite !membit_cells by lia. rewrite E. reflexivity.
Qed.

Lemma count_code_cells P c1 c2 :
  cells c1 = cells c2 -> cells_ok (cells c1) ->
  count_code P c1 = count_code P c2.
Proof.
  intros E Hok. unfold count_code. apply count_where_ext.
  intros [x y] Hin. cbn [fst snd]. f_equal.
  apply cell_at_cells; try assumption. apply in_all_coords. exact Hin.
Qed.

(** ** Food placement *)

Lemma drawn_in_grid rnd p k :
  in_grid (fst (drawn rnd p k)) (snd (drawn rnd p k)).
Proof.
  unfold drawn, SDL_rand, in_grid, SNAKE_GAME_WIDTH, SNAKE_GAME_HEIGHT.
  cbn [fst snd].
  pose proof (Z.mod_pos_bound (rnd (p + 2 * k)%nat) 24 ltac:(lia)).
  pose proof (Z.mod_pos_bound (rnd (S (p + 2 * k))) 18 ltac:(lia)).
  rewrite !to_schar_id by (unfold is_schar; lia). lia.
Qed.

Lemma drawn_shift rnd p m k :
  drawn rnd (p + 2 * m) k = drawn rnd p (m + k).
Proof.
  unfold drawn.
  replace (p + 2 * m + 2 * k)%nat with (p + 2 * (m + k))%nat by lia.
  reflexivity.
Qed.

Lemma fair_from_shift rnd p m : fair_from rnd p -> fair_from rnd (p + 2 * m).
Proof.
  intros Hf j x y Hg. destruct (Hf (m + j)%nat x y Hg) as (k & Hk & Hd).
  exists (k - m)%nat. split; [lia |].
  rewrite drawn_shift. replace (m + (k - m))%nat with k by lia. exact Hd.
Qed.

(** What a successful placement has done: some attempt [k] within the
    bound drew an empty cell, and that cell was written. *)
Lemma new_food_pos_spec rnd fuel p c p' c' :
  new_food_pos_ rnd fuel p c = Some (p', c') ->
  exists k, (k < fuel)%nat /\ p' = (p + 2 * S k)%nat /\
    snake_cell_at c (fst (drawn rnd p k)) (snd (drawn rnd p k))
      = SNAKE_CELL_NOTHING /\
    c' = put_cell_at_ c (fst (drawn rnd p k)) (snd (drawn rnd p k))
           SNAKE_CELL_FOOD.
Proof.
  revert p. induction fuel as [| fuel IH]; intros p H; [discriminate |].
  cbn [new_food_pos_] in H.
  destruct (Z.eqb_spec
              (snake_cell_at c
                 (to_schar (SDL_rand rnd p SNAKE_GAME_WIDTH))
                 (to_schar (SDL_rand rnd (S p) SNAKE_GAME_HEIGHT)))
              SNAKE_CELL_NOTHING) as [E | N].
  - inversion H; subst. exists O. unfold drawn. cbn [fst snd].
    replace (p + 2 * 0)%nat with p by lia.
    repeat split; try assumption; lia.
  - destruct (IH _ H) as (k & Hk & Hp & Hc & Hput).
    exists (S k).
    replace (drawn rnd p (S k)) with (drawn rnd (S (S p)) k)
      by (unfold drawn; replace (S (S p) + 2 * k)%nat
            with (p + 2 * S k)%nat by lia; reflexivity).
    repeat split; try assumption; lia.
Qed.

(** As soon as attempt [k] draws an empty cell, a bound above [k] is
    enough. *)
Lemma new_food_pos_hit rnd c k : forall p fuel,
  snake_cell_at c (fst (drawn rnd p k)) (snd (drawn rnd p k))
    = SNAKE_CELL_NOTHING ->
  (k < fuel)%nat ->
  exists p' c', new_food_pos_ rnd fuel p c = Some (p', c').
Proof.
  induction k as [| k IH]; intros p fuel Hc Hk;
    (destruct fuel as [| fuel]; [lia |]); cbn [new_food_pos_].
  - unfold drawn in Hc. cbn [fst snd] in Hc.
    replace (p + 2 * 0)%nat with p in Hc by lia.
    rewrite Hc. simpl. eauto.
  - destruct (snake_cell_at c _ _ =? SNAKE_CELL_NOTHING); [eauto |].
    apply IH; [| lia].
    replace (drawn rnd (S (S p)) k) with (drawn rnd p (S k))
      by (unfold drawn; replace (S (S p) + 2 * k)%nat
            with (p + 2 * S k)%nat by lia; reflexivity).
    exact Hc.
Qed.

(** Under a fair generator the loop ends on every grid that is not full. *)
Lemma new_food_pos_total rnd p c :
  fair_from rnd p -> (count_used c < 432)%nat ->
  exists fuel0, forall fuel, (fuel0 <= fuel)%nat ->
    exists p' c', new_food_pos_ rnd fuel p c = Some (p', c').
Proof.
  intros Hf Hc. destruct (empty_cell_exists c Hc) as (x & y & Hg & He).
  destruct (Hf O x y Hg) as (k & _ & Hd).
  exists (S k). intros fuel Hfuel.
  apply (new_food_pos_hit rnd c k); [| lia].
  rewrite Hd. exact He.
Qed.

(** Effect of a successful placement on a well-formed state. *)
Lemma new_food_pos_effect rnd fuel p c p' c' :
  new_food_pos_ rnd fuel p c = Some (p', c') ->
  cells_ok (cells c) -> is_schar (head_xpos c) ->
  exists x y k, p' = (p + 2 * S k)%nat /\
    in_grid x y /\ snake_cell_at c x y = SNAKE_CELL_NOTHING /\
    c' = put_cell_at_ c x y SNAKE_CELL_FOOD /\
    snake_cell_at c' x y = SNAKE_CELL_FOOD /\
    (forall x' y', in_grid x' y' -> (x', y') <> (x, y) ->
       snake_cell_at c' x' y' = snake_cell_at c x' y') /\
    cells_ok (cells c') /\
    head_xpos c' = head_xpos c /\ head_ypos c' = head_ypos c /\
    tail_xpos c' = tail_xpos c /\ tail_ypos c' = tail_ypos c /\
    next_dir c' = next_dir c /\
    inhibit_tail_step c' = inhibit_tail_step c /\
    occupied_cells c' = occupied_cells c.
Proof.
  intros H Hok Hc.
  destruct (new_food_pos_spec _ _ _ _ _ _ H) as (k & _ & Hp & He & ->).
  pose proof (drawn_in_grid rnd p k) as Hg.
  exists (fst (drawn rnd p k)), (snd (drawn rnd p k)), k.
  split; [exact Hp |]. split; [exact Hg |]. split; [exact He |].
  split; [reflexivity |].
  split; [rewrite cell_at_put_same by assumption; reflexivity |].
  split; [intros x' y' Hg' Hne; apply cell_at_put_other; assumption |].
  split; [apply put_cell_cells_ok; assumption |].
  apply put_cell_scalars; assumption.
Qed.

Lemma new_food_pos_mono rnd c r : forall fuel fuel' p,
  new_food_pos_ rnd fuel p c = Some r -> (fuel <= fuel')%nat ->
  new_food_pos_ rnd fuel' p c = Some r.
Proof.
  induction fuel as [| fuel IH]; intros fuel' p H Hle; [discriminate |].
  destruct fuel' as [| fuel']; [lia |]. cbn [new_food_pos_] in *.
  destruct (snake_cell_at c _ _ =? SNAKE_CELL_NOTHING); [exact H |].
  apply IH; [exact H | lia].
Qed.

(** A generator that keeps drawing one occupied cell never lets the loop
    end: the bound is reached whatever it is. *)
Lemma new_food_pos_corner c :
  snake_cell_at c 23 17 <> SNAKE_CELL_NOTHING ->
  forall fuel p, new_food_pos_ corner_rnd fuel p c = None.
Proof.
  intros Hc. induction fuel as [| fuel IH]; intros p; [reflexivity |].
  cbn [new_food_pos_].
  change (to_schar (SDL_rand corner_rnd p SNAKE_GAME_WIDTH)) with 23.
  change (to_schar (SDL_rand corner_rnd (S p) SNAKE_GAME_HEIGHT)) with 17.
  destruct (Z.eqb_spec (snake_cell_at c 23 17) SNAKE_CELL_NOTHING);
    [contradiction | apply IH].
Qed.

(** ** Initialisation *)

Lemma snake_initialize_unfold rnd fuel p ctx :
  snake_initialize rnd fuel p ctx = initial_food rnd fuel 4 p init_base.
Proof. reflexivity. Qed.

Lemma cells_ok_zero : cells_ok (replicate 162 0).
Proof.
  split; [apply length_replicate |]. apply Forall_replicate. lia.
Qed.

Lemma init_base_inv : food_inv 0 init_base.
Proof.
  assert (Hok : cells_ok (cells init_base))
    by (apply put_cell_cells_ok, cells_ok_zero).
  assert (Hall :
    forallb (fun q => snake_cell_at init_base (fst q) (snd q) =?
                      (if (fst q =? 12) && (snd q =? 9) then 1 else 0))
      all_coords = true) by (vm_compute; reflexivity).
  rewrite forallb_forall in Hall.
  split.
  - exact Hok.
  - split; vm_compute; reflexivity.
  - split; vm_compute; reflexivity.
  - vm_compute; reflexivity.
  - vm_compute; reflexivity.
  - vm_compute; reflexivity.
  - vm_compute; reflexivity.
  - vm_compute; reflexivity.
  - vm_compute; reflexivity.
  - intros x y Hg Hne. left.
    specialize (Hall (x, y)). cbn [fst snd] in Hall.
    apply Z.eqb_eq in Hall;
      [| apply list_elem_of_In, in_all_coords; exact Hg].
    rewrite Hall.
    destruct (Z.eqb_spec x 12) as [Ex | ?]; [| reflexivity].
    destruct (Z.eqb_spec y 9) as [Ey | ?]; [| reflexivity].
    subst x y. contradiction.
Qed.

Lemma count_cells_code ct c :
  count_cells ct c = count_code (fun v => v =? ct) c.
Proof. reflexivity. Qed.

Lemma count_used_code c :
  count_used c = count_code (fun v => negb (v =? SNAKE_CELL_NOTHING)) c.
Proof. reflexivity. Qed.

(** One round of the food loop. *)
Lemma food_inv_step rnd fuel p c p1 c1 n :
  food_inv n c -> (n < 4)%nat ->
  new_food_pos_ rnd fuel p c = Some (p1, c1) ->
  food_inv (S n) (set_occupied_cells (to_uint (occupied_cells c1 + 1)) c1).
Proof.
  intros [Hok [Hhx Hhy] [Htx Hty] Hdir Hinh Hocc Hbody Hfood Hused Hrest] Hn H.
  destruct (new_food_pos_effect _ _ _ _ _ _ H Hok)
    as (x & y & k & _ & Hg & He & Hput & Hnew & Hother & Hok1 & S1 & S2 & S3
        & S4 & S5 & S6 & S7); [rewrite Hhx; unfold is_schar; lia |].
  assert (Hxy : (12, 9) <> (x, y)).
  { intros E. inversion E; subst x y. rewrite Hbody in He. discriminate. }
  assert (Hg0 : in_grid 12 9)
    by (unfold in_grid, SNAKE_GAME_WIDTH, SNAKE_GAME_HEIGHT; lia).
  set (c2 := set_occupied_cells _ c1).
  assert (Ecells : cells c2 = cells c1) by reflexivity.
  assert (Hcell : forall x' y', in_grid x' y' ->
            snake_cell_at c2 x' y' = snake_cell_at c1 x' y').
  { intros x' y' Hg'. apply cell_at_cells; assumption. }
  split.
  - rewrite Ecells. exact Hok1.
  - simpl. split; congruence.
  - simpl. split; congruence.
  - simpl. congruence.
  - simpl. congruence.
  - simpl. rewrite S7, Hocc. unfold to_uint. rewrite Z.mod_small; lia.
  - rewrite Hcell by assumption. rewrite Hother by assumption. exact Hbody.
  - rewrite count_cells_code.
    rewrite (count_code_cells _ c2 c1 Ecells) by (rewrite Ecells; exact Hok1).
    pose proof (count_put (fun v => v =? SNAKE_CELL_FOOD) c x y
                  SNAKE_CELL_FOOD Hok Hg) as Hc.
    cbv beta in Hc. rewrite <- Hput in Hc. rewrite He in Hc.
    change (count_code (fun v => v =? SNAKE_CELL_FOOD) c)
      with (count_cells SNAKE_CELL_FOOD c) in Hc.
    rewrite Hfood in Hc.
    change (SNAKE_CELL_NOTHING =? SNAKE_CELL_FOOD) with false in Hc.
    change (Z.land SNAKE_CELL_FOOD THREE_BITS =? SNAKE_CELL_FOOD)
      with true in Hc.
    cbv iota in Hc. lia.
  - rewrite count_used_code.
    rewrite (count_code_cells _ c2 c1 Ecells) by (rewrite Ecells; exact Hok1).
    pose proof (count_put (fun v => negb (v =? SNAKE_CELL_NOTHING)) c x y
                  SNAKE_CELL_FOOD Hok Hg) as Hc.
    cbv beta in Hc. rewrite <- Hput in Hc. rewrite He in Hc.
    change (count_code (fun v => negb (v =? SNAKE_CELL_NOTHING)) c)
      with (count_used c) in Hc.
    rewrite Hused in Hc.
    change (negb (SNAKE_CELL_NOTHING =? SNAKE_CELL_NOTHING)) with false in Hc.
    change (negb (Z.land SNAKE_CELL_FOOD THREE_BITS =? SNAKE_CELL_NOTHING))
      with true in Hc.
    cbv iota in Hc. lia.
  - intros x' y' Hg' Hne. rewrite Hcell by assumption.
    destruct (decide ((x', y') = (x, y))) as [E | N].
    + inversion E; subst. right. exact Hnew.
    + rewrite Hother by assumption. apply Hrest; assumption.
Qed.

Lemma initial_food_inv rnd fuel : forall n m p c p' c',
  food_inv m c -> (m + n <= 4)%nat ->
  initial_food rnd fuel n p c = Some (p', c') -> food_inv (m + n) c'.
Proof.
  induction n as [| n IH]; intros m p c p' c' Hinv Hle H.
  - inversion H; subst. replace (m + 0)%nat with m by lia. exact Hinv.
  - cbn [initial_food] in H.
    destruct (new_food_pos_ rnd fuel p c) as [[p1 c1] |] eqn:Hf;
      [| discriminate].
    cbn in H. replace (m + S n)%nat with (S m + n)%nat by lia.
    eapply (IH (S m) p1); [| lia | exact H].
    apply (food_inv_step rnd fuel p c p1 c1); [exact Hinv | lia | exact Hf].
Qed.

Lemma snake_initialize_inv rnd fuel p ctx p' c' :
  snake_initialize rnd fuel p ctx = Some (p', c') -> food_inv 4 c'.
Proof.
  rewrite snake_initialize_unfold. intros H.
  apply (initial_food_inv rnd fuel 4 0 p init_base p' c');
    [apply init_base_inv | lia | exact H].
Qed.

Lemma snake_initialize_post rnd fuel p ctx p' c' :
  snake_initialize rnd fuel p ctx = Some (p', c') -> init_post c'.
Proof.
  intros H. apply snake_initialize_inv in H.
  destruct H as [Hok Hh Ht Hdir Hinh Hocc Hbody Hfood Hused Hrest].
  split; try assumption.
  intros x y Hg Hne Hnf. destruct (Hrest x y Hg Hne); [assumption |].
  contradiction.
Qed.

Lemma food_inv_ok n c : food_inv n c -> (n <= 4)%nat -> ctx_ok c.
Proof.
  intros [Hok [Hhx Hhy] [Htx Hty] Hdir Hinh Hocc _ _ _ _] Hn.
  split; try assumption;
    unfold in_grid, SNAKE_GAME_WIDTH, SNAKE_GAME_HEIGHT; lia.
Qed.

Lemma snake_initialize_ok rnd fuel p ctx p' c' :
  snake_initialize rnd fuel p ctx = Some (p', c') -> ctx_ok c'.
Proof.
  intros H. apply (food_inv_ok 4); [| lia].
  exact (snake_initialize_inv _ _ _ _ _ _ H).
Qed.

(** Under a fair generator the food loop ends. *)
Lemma initial_food_total rnd : forall n m p c,
  fair_from rnd p -> food_inv m c -> (m + n <= 4)%nat ->
  exists fuel0, forall fuel, (fuel0 <= fuel)%nat ->
    exists p' c', initial_food rnd fuel n p c = Some (p', c').
Proof.
  induction n as [| n IH]; intros m p c Hf Hinv Hle.
  - exists O. intros fuel _. simpl. eauto.
  - destruct (new_food_pos_total rnd p c Hf) as (f1 & H1).
    { rewrite (fi_used _ _ Hinv). lia. }
    destruct (H1 f1 (Nat.le_refl _)) as (p1 & c1 & E1).
    destruct (new_food_pos_spec _ _ _ _ _ _ E1) as (k & _ & Hp & _).
    destruct (IH (S m) p1
                (set_occupied_cells (to_uint (occupied_cells c1 + 1)) c1))
      as (f2 & H2).
    + subst p1. apply fair_from_shift. exact Hf.
    + apply (food_inv_step rnd f1 p c p1 c1); [exact Hinv | lia | exact E1].
    + lia.
    + exists (Nat.max f1 f2). intros fuel Hfuel. cbn [initial_food].
      rewrite (new_food_pos_mono rnd c (p1, c1) f1 fuel p E1) by lia.
      cbn. apply H2. lia.
Qed.

(** Without fairness [snake_initialize] need not return: under the
    generator that always draws (23, 17) the second placement never finds
    an empty cell. *)
Lemma snake_initialize_corner fuel p ctx :
  snake_initialize corner_rnd fuel p ctx = None.
Proof.
  rewrite snake_initialize_unfold. destruct fuel as [| fuel]; [reflexivity |].
  cbn [initial_food new_food_pos_].
  change (to_schar (SDL_rand corner_rnd p SNAKE_GAME_WIDTH)) with 23.
  change (to_schar (SDL_rand corner_rnd (S p) SNAKE_GAME_HEIGHT)) with 17.
  replace (snake_cell_at init_base 23 17 =? SNAKE_CELL_NOTHING) with true
    by (vm_compute; reflexivity).
  cbn [mbind option_bind]. cbn [initial_food].
  rewrite new_food_pos_corner; [reflexivity |].
  vm_compute. discriminate.
Qed.

Lemma snake_initialize_total rnd p ctx :
  fair_from rnd p ->
  exists fuel0, forall fuel, (fuel0 <= fuel)%nat ->
    exists p' c', snake_initialize rnd fuel p ctx = Some (p', c').
Proof.
  intros Hf.
  destruct (initial_food_total rnd 4 0 p init_base Hf init_base_inv)
    as (f0 & H0); [lia |].
  exists f0. intros fuel Hfuel. rewrite snake_initialize_unfold.
  apply H0. exact Hfuel.
Qed.

(** The scanning generator is fair. *)
Lemma scan_rnd_drawn k :
  drawn scan_rnd 0 k = (Z.of_nat k mod 24, (Z.of_nat k / 24) mod 18).
Proof.
  unfold drawn, SDL_rand, scan_rnd, SNAKE_GAME_WIDTH, SNAKE_GAME_HEIGHT.
  cbn [Nat.add].
  replace (Z.of_nat (S (2 * k))) with (1 + 2 * Z.of_nat k) by lia.
  replace (Z.of_nat (2 * k)) with (0 + 2 * Z.of_nat k) by lia.
  rewrite Z.even_add_mul_2, Z.even_add_mul_2. cbn [Z.even].
  replace ((0 + 2 * Z.of_nat k) / 2) with (Z.of_nat k)
    by (apply Z.div_unique with 0; lia).
  replace ((1 + 2 * Z.of_nat k) / 2) with (Z.of_nat k)
    by (apply Z.div_unique with 1; lia).
  rewrite !Z.mod_mod by lia.
  pose proof (Z.mod_pos_bound (Z.of_nat k) 24 ltac:(lia)).
  pose proof (Z.mod_pos_bound (Z.of_nat k / 24) 18 ltac:(lia)).
  rewrite !to_schar_id by (unfold is_schar; lia). reflexivity.
Qed.

Lemma scan_rnd_fair : fair_from scan_rnd 0.
Proof.
  intros j x y [Hx Hy]. unfold SNAKE_GAME_WIDTH, SNAKE_GAME_HEIGHT in *.
  exists (Z.to_nat (x + 24 * (y + 18 * Z.of_nat j))). split; [lia |].
  rewrite scan_rnd_drawn. rewrite Z2Nat.id by lia. f_equal.
  - symmetry. apply Z.mod_unique with (y + 18 * Z.of_nat j); lia.
  - replace ((x + 24 * (y + 18 * Z.of_nat j)) / 24)
      with (y + 18 * Z.of_nat j) by (apply Z.div_unique with x; lia).
    symmetry. apply Z.mod_unique with (Z.of_nat j); lia.
Qed.

(** ** Moves and wrap-around *)

Lemma wrap_around_mod v m :
  0 < m <= 127 -> -1 <= v <= m -> wrap_around_ v m = v mod m.
Proof.
  intros Hm Hv. unfold wrap_around_.
  destruct (Z.ltb_spec v 0).
  - rewrite to_schar_id by (unfold is_schar; lia).
    apply Z.mod_unique with (-1); lia.
  - destruct (Z.gtb_spec v (m - 1)).
    + apply Z.mod_unique with 1; lia.
    + symmetry. apply Z.mod_small. lia.
Qed.

(** A coordinate moved by one cell and wrapped. *)
Lemma wrap_move v d m :
  0 < m <= 127 -> 0 <= v < m -> -1 <= d <= 1 ->
  wrap_around_ (to_schar (v + d)) m = (v + d) mod m.
Proof.
  intros Hm Hv Hd. rewrite to_schar_id by (unfold is_schar; lia).
  apply wrap_around_mod; lia.
Qed.

Lemma wrap_keep v m : 0 < m <= 127 -> 0 <= v < m -> wrap_around_ v m = v.
Proof.
  intros Hm Hv. rewrite wrap_around_mod by lia. apply Z.mod_small. lia.
Qed.

(** The head phase of a step, member by member. *)
Lemma snake_step_head_spec c :
  in_grid (head_xpos c) (head_ypos c) ->
  let c' := snake_step_head c in
  head_xpos c' = (head_xpos c + dir_dx (next_dir c)) mod SNAKE_GAME_WIDTH /\
  head_ypos c' = (head_ypos c + dir_dy (next_dir c)) mod SNAKE_GAME_HEIGHT /\
  cells c' = cells c /\ tail_xpos c' = tail_xpos c /\
  tail_ypos c' = tail_ypos c /\ next_dir c' = next_dir c /\
  inhibit_tail_step c' = inhibit_tail_step c /\
  occupied_cells c' = occupied_cells c.
Proof.
  intros [Hx Hy]. unfold SNAKE_GAME_WIDTH, SNAKE_GAME_HEIGHT in *.
  unfold snake_step_head, dir_dx, dir_dy, dir_code,
    SNAKE_GAME_WIDTH, SNAKE_GAME_HEIGHT.
  change (to_schar 24) with 24. change (to_schar 18) with 18.
  destruct (Z.eqb_spec (next_dir c) 0);
    [| destruct (Z.eqb_spec (next_dir c) 1);
       [| destruct (Z.eqb_spec (next_dir c) 2);
          [| destruct (Z.eqb_spec (next_dir c) 3)]]];
    repeat match goal with
           | |- context [next_dir c =? ?b] =>
               destruct (Z.eqb_spec (next_dir c) b); try lia
           end;
    cbn [head_xpos head_ypos cells tail_xpos tail_ypos next_dir
         inhibit_tail_step occupied_cells set_head_xpos set_head_ypos];
    rewrite ?Z.add_0_r;
    repeat split;
    first [ apply (wrap_move _ 1); lia
          | apply (wrap_move _ (-1)); lia
          | rewrite wrap_keep by lia; symmetry; apply Z.mod_small; lia ].
Qed.

Lemma mod_in_range v m : 0 < m -> 0 <= v mod m < m.
Proof. intros. apply Z.mod_pos_bound. lia. Qed.

Lemma snake_step_head_ok c : ctx_ok c -> ctx_ok (snake_step_head c).
Proof.
  intros [Hok Hh Ht Hd Hi Ho].
  destruct (snake_step_head_spec c Hh)
    as (E1 & E2 & E3 & E4 & E5 & E6 & E7 & E8).
  split; rewrite ?E1, ?E2, ?E3, ?E4, ?E5, ?E6, ?E7, ?E8; try assumption.
  split; apply mod_in_range; reflexivity.
Qed.

(** A write to the grid does not read the inhibit counter. *)
Lemma put_cell_set_inhibit v c x y ct :
  put_cell_at_ (set_inhibit_tail_step v c) x y ct =
  set_inhibit_tail_step v (put_cell_at_ c x y ct).
Proof.
  assert (Hs : forall c k b, ctx_store (set_inhibit_tail_step v c) k b =
                        set_inhibit_tail_step v (ctx_store c k b)).
  { intros c0 k b. unfold ctx_store.
    cbn [cells head_xpos set_inhibit_tail_step].
    destruct ((0 <=? k) && (k <? CELLS_BYTES)); [reflexivity |].
    destruct (k =? CELLS_BYTES); reflexivity. }
  unfold put_cell_at_, store_range. rewrite !Hs. reflexivity.
Qed.

(** The tail phase when the counter does not reach 0: only the counter
    changes. *)
Lemma snake_step_tail_hold c :
  1 <= inhibit_tail_step c <= 127 -> inhibit_tail_step c <> 1 ->
  snake_step_tail c =
  set_inhibit_tail_step (inhibit_tail_step c - 1) c.
Proof.
  intros Hi Hne. unfold snake_step_tail.
  cbn [inhibit_tail_step set_inhibit_tail_step].
  rewrite to_schar_id by (unfold is_schar; lia).
  destruct (Z.eqb_spec (inhibit_tail_step c - 1) 0); [lia | reflexivity].
Qed.

(** The tail phase when the counter reaches 0: the counter is back at 1,
    the tail cell is cleared and the tail moves one cell along the
    direction that the cell held, wrapping at the edges. *)
Lemma snake_step_tail_advance c :
  ctx_ok c -> inhibit_tail_step c = 1 ->
  let ct := snake_cell_at c (tail_xpos c) (tail_ypos c) in
  let c' := snake_step_tail c in
  inhibit_tail_step c' = 1 /\
  tail_xpos c' = (tail_xpos c + dir_dx (ct - 1)) mod SNAKE_GAME_WIDTH /\
  tail_ypos c' = (tail_ypos c + dir_dy (ct - 1)) mod SNAKE_GAME_HEIGHT /\
  cells c' = cells (put_cell_at_ c (tail_xpos c) (tail_ypos c)
                      SNAKE_CELL_NOTHING) /\
  head_xpos c' = head_xpos c /\ head_ypos c' = head_ypos c /\
  next_dir c' = next_dir c /\ occupied_cells c' = occupied_cells c.
Proof.
  intros [Hcells [Hhx Hhy] [Htx Hty] Hd Hi Ho] Hinh ct c'.
  unfold SNAKE_GAME_WIDTH, SNAKE_GAME_HEIGHT in *.
  subst c'. unfold snake_step_tail.
  cbn [inhibit_tail_step set_inhibit_tail_step].
  rewrite Hinh. change (to_schar (1 - 1) =? 0) with true. cbv iota.
  change (to_schar (to_schar (1 - 1) + 1)) with 1.
  cbn [tail_xpos tail_ypos set_inhibit_tail_step].
  change (snake_cell_at (set_inhibit_tail_step 1
            (set_inhibit_tail_step (to_schar (1 - 1)) c))
            (tail_xpos c) (tail_ypos c)) with ct.
  rewrite !put_cell_set_inhibit.
  assert (Hg : in_grid (tail_xpos c) (tail_ypos c))
    by (unfold in_grid, SNAKE_GAME_WIDTH, SNAKE_GAME_HEIGHT; lia).
  destruct (put_cell_scalars c (tail_xpos c) (tail_ypos c)
              SNAKE_CELL_NOTHING Hcells Hg)
    as (S1 & S2 & S3 & S4 & S5 & S6 & S7);
    [unfold is_schar; lia |].
  set (c1 := put_cell_at_ c (tail_xpos c) (tail_ypos c) SNAKE_CELL_NOTHING)
    in *.
  cbv zeta in S1, S2, S3, S4, S5, S6, S7.
  unfold dir_dx, dir_dy, SNAKE_CELL_SRIGHT, SNAKE_CELL_SUP, SNAKE_CELL_SLEFT,
    SNAKE_CELL_SDOWN, SNAKE_GAME_WIDTH, SNAKE_GAME_HEIGHT.
  change (to_schar 24) with 24. change (to_schar 18) with 18.
  clearbody ct c1.
  destruct (Z.eqb_spec ct 1);
    [| destruct (Z.eqb_spec ct 2);
       [| destruct (Z.eqb_spec ct 3);
          [| destruct (Z.eqb_spec ct 4)]]];
    repeat match goal with
           | |- context [ct - 1 =? ?b] =>
               destruct (Z.eqb_spec (ct - 1) b); try lia
           end;
    cbn [head_xpos head_ypos cells tail_xpos tail_ypos next_dir
         inhibit_tail_step occupied_cells set_tail_xpos set_tail_ypos
         set_inhibit_tail_step];
    rewrite ?Z.add_0_r, ?S1, ?S2, ?S3, ?S4, ?S5, ?S6, ?S7;
    repeat split;
    first [ apply (wrap_move _ 1); lia
          | apply (wrap_move _ (-1)); lia
          | rewrite wrap_keep by lia; symmetry; apply Z.mod_small; lia ].
Qed.

Lemma snake_step_tail_ok c :
  ctx_ok c ->
  ctx_ok (snake_step_tail c) /\ inhibit_tail_step (snake_step_tail c) <= 126.
Proof.
  intros Hok. pose proof Hok as [Hcells Hh Ht Hd Hi Ho].
  destruct (Z.eq_dec (inhibit_tail_step c) 1) as [E | N].
  - destruct (snake_step_tail_advance c Hok E)
      as (E1 & E2 & E3 & E4 & E5 & E6 & E7 & E8).
    split; [| lia].
    split; rewrite ?E1, ?E2, ?E3, ?E4, ?E5, ?E6, ?E7, ?E8; try assumption.
    + apply put_cell_cells_ok. exact Hcells.
    + split; apply mod_in_range; reflexivity.
    + lia.
  - rewrite snake_step_tail_hold by (try assumption; lia).
    split; [| simpl; lia].
    split; simpl; try assumption. lia.
Qed.

(** ** One step *)

Lemma snake_step_unfold rnd fuel p c :
  snake_step rnd fuel p c =
  if negb (step_head_cell c =? SNAKE_CELL_NOTHING) &&
     negb (step_head_cell c =? SNAKE_CELL_FOOD)
  then snake_initialize rnd fuel p (step_moved c)
  else if step_head_cell c =? SNAKE_CELL_FOOD then
    if are_cells_full_ (step_written c) then
      snake_initialize rnd fuel p (step_written c)
    else
      '(p1, c1) ← new_food_pos_ rnd fuel p (step_written c);
      Some (p1,
            set_occupied_cells (to_uint (occupied_cells c1 + 1))
              (set_inhibit_tail_step
                 (to_schar (inhibit_tail_step c1 + 1)) c1))
  else Some (p, step_written c).
Proof.
  unfold snake_step, step_head_cell, step_written, step_moved.
  cbv zeta. reflexivity.
Qed.

Lemma step_moved_ok c : ctx_ok c -> ctx_ok (step_moved c).
Proof.
  intros Hok. apply snake_step_head_ok. apply snake_step_tail_ok. exact Hok.
Qed.

(** The two writes keep the state well formed and touch no scalar. *)
Lemma step_written_spec c :
  ctx_ok c ->
  let m := step_moved c in
  let w := step_written c in
  ctx_ok w /\
  head_xpos w = head_xpos m /\ head_ypos w = head_ypos m /\
  tail_xpos w = tail_xpos m /\ tail_ypos w = tail_ypos m /\
  next_dir w = next_dir c /\
  inhibit_tail_step w = inhibit_tail_step (snake_step_tail c) /\
  occupied_cells w = occupied_cells c /\
  snake_cell_at w (head_xpos m) (head_ypos m) =
    Z.land (next_dir c + 1) THREE_BITS.
Proof.
  intros Hok m w.
  destruct (snake_step_tail_ok c Hok) as [Hokt _].
  pose proof (snake_step_head_ok _ Hokt) as Hokm. fold (step_moved c) in Hokm.
  fold m in Hokm.
  destruct (snake_step_head_spec _ (ok_head _ Hokt))
    as (_ & _ & _ & M4 & M5 & M6 & M7 & M8).
  fold (step_moved c) in M4, M5, M6, M7, M8. fold m in M4, M5, M6, M7, M8.
  assert (Hd : next_dir (snake_step_tail c) = next_dir c /\
               occupied_cells (snake_step_tail c) = occupied_cells c).
  { destruct (Z.eq_dec (inhibit_tail_step c) 1) as [E | N].
    - destruct (snake_step_tail_advance c Hok E)
        as (_ & _ & _ & _ & _ & _ & E7 & E8). split; assumption.
    - rewrite snake_step_tail_hold
        by (try assumption; apply (ok_inhibit _ Hok)).
      split; reflexivity. }
  destruct Hd as [Hd1 Hd2].
  pose proof Hokm as [Hcm [Hmx Hmy] Htm Hdm Him Hom].
  unfold SNAKE_GAME_WIDTH, SNAKE_GAME_HEIGHT in Hmx, Hmy.
  subst w. unfold step_written. fold m.
  set (w1 := put_cell_at_ m (head_xpos (snake_step_tail c))
               (head_ypos (snake_step_tail c)) (next_dir c + 1)).
  destruct (put_cell_scalars m (head_xpos (snake_step_tail c))
              (head_ypos (snake_step_tail c)) (next_dir c + 1) Hcm
              (ok_head _ Hokt))
    as (A1 & A2 & A3 & A4 & A5 & A6 & A7); [unfold is_schar; lia |].
  fold w1 in A1, A2, A3, A4, A5, A6, A7.
  assert (Hc1 : cells_ok (cells w1)) by (apply put_cell_cells_ok; exact Hcm).
  assert (Hg1 : in_grid (head_xpos w1) (head_ypos w1))
    by (rewrite A1, A2; apply (ok_head _ Hokm)).
  destruct (put_cell_scalars w1 (head_xpos w1) (head_ypos w1)
              (next_dir c + 1) Hc1 Hg1)
    as (B1 & B2 & B3 & B4 & B5 & B6 & B7);
    [rewrite A1; unfold is_schar; lia |].
  cbv zeta in B1, B2, B3, B4, B5, B6, B7.
  set (w := put_cell_at_ w1 (head_xpos w1) (head_ypos w1) (next_dir c + 1))
    in *.
  assert (Hcw : cells_ok (cells w)) by (apply put_cell_cells_ok; exact Hc1).
  split; [| repeat split; try congruence].
  - split; rewrite ?B1, ?B2, ?B3, ?B4, ?B5, ?B6, ?B7,
             ?A1, ?A2, ?A3, ?A4, ?A5, ?A6, ?A7;
      first [assumption | apply (ok_head _ Hokm)].
  - subst w. rewrite <- A1, <- A2.
    apply cell_at_put_same; assumption.
Qed.

Lemma step_written_ok c : ctx_ok c -> ctx_ok (step_written c).
Proof. intros Hok. apply (step_written_spec c Hok). Qed.

(** A step leaves a well-formed state well formed. *)
Lemma snake_step_ok rnd fuel p c p' c' :
  ctx_ok c -> snake_step rnd fuel p c = Some (p', c') -> ctx_ok c'.
Proof.
  intros Hok. rewrite snake_step_unfold.
  destruct (step_written_spec c Hok)
    as (Hokw & W1 & W2 & W3 & W4 & W5 & W6 & W7 & _).
  destruct (snake_step_tail_ok c Hok) as [Hokt Ht].
  destruct (negb (step_head_cell c =? SNAKE_CELL_NOTHING) &&
            negb (step_head_cell c =? SNAKE_CELL_FOOD)).
  { apply snake_initialize_ok. }
  destruct (step_head_cell c =? SNAKE_CELL_FOOD).
  2:{ intros H. inversion H; subst. exact Hokw. }
  unfold are_cells_full_.
  change (to_uint (SNAKE_GAME_WIDTH * SNAKE_GAME_HEIGHT)) with 432.
  destruct (Z.eqb_spec (occupied_cells (step_written c)) 432) as [E | N].
  { apply snake_initialize_ok. }
  destruct (new_food_pos_ rnd fuel p (step_written c)) as [[p1 c1] |] eqn:Hf;
    [| discriminate].
  cbn. intros H. inversion H; subst. clear H.
  pose proof Hokw as [Hcw Hhw Htw Hdw Hiw How].
  destruct (new_food_pos_effect _ _ _ _ _ _ Hf Hcw)
    as (x & y & k & _ & Hg & He & Hput & Hnew & Hother & Hok1 & S1 & S2 & S3
        & S4 & S5 & S6 & S7).
  { destruct Hhw as [Hx _]. unfold SNAKE_GAME_WIDTH in Hx.
    unfold is_schar. lia. }
  pose proof (ok_inhibit _ Hokt) as Hit.
  split; cbn [cells head_xpos head_ypos tail_xpos tail_ypos next_dir
              inhibit_tail_step occupied_cells set_occupied_cells
              set_inhibit_tail_step];
    rewrite ?S1, ?S2, ?S3, ?S4, ?S5, ?S6, ?S7; try assumption.
  - rewrite W6. rewrite to_schar_id by (unfold is_schar; lia). lia.
  - unfold to_uint. rewrite Z.mod_small by lia. lia.
Qed.

(** ** Members that a step phase never touches *)

Lemma snake_step_head_members c :
  let c' := snake_step_head c in
  cells c' = cells c /\ tail_xpos c' = tail_xpos c /\
  tail_ypos c' = tail_ypos c /\ next_dir c' = next_dir c /\
  inhibit_tail_step c' = inhibit_tail_step c /\
  occupied_cells c' = occupied_cells c.
Proof.
  unfold snake_step_head.
  destruct (next_dir c =? dir_code SNAKE_DIR_RIGHT);
    [| destruct (next_dir c =? dir_code SNAKE_DIR_UP);
       [| destruct (next_dir c =? dir_code SNAKE_DIR_LEFT);
          [| destruct (next_dir c =? dir_code SNAKE_DIR_DOWN)]]];
    cbn; tauto.
Qed.

Lemma snake_step_tail_members c :
  1 <= inhibit_tail_step c <= 127 ->
  let c' := snake_step_tail c in
  inhibit_tail_step c' =
    (if inhibit_tail_step c =? 1 then 1 else inhibit_tail_step c - 1) /\
  next_dir c' = next_dir c /\ occupied_cells c' = occupied_cells c /\
  head_ypos c' = head_ypos c.
Proof.
  intros Hi. cbv zeta.
  destruct (Z.eqb_spec (inhibit_tail_step c) 1) as [E | N].
  - unfold snake_step_tail.
    cbn [inhibit_tail_step set_inhibit_tail_step].
    rewrite E. change (to_schar (1 - 1) =? 0) with true. cbv iota.
    change (to_schar (to_schar (1 - 1) + 1)) with 1.
    rewrite !put_cell_set_inhibit.
    set (ct := snake_cell_at _ _ _).
    pose proof (put_cell_members c (tail_xpos c) (tail_ypos c)
                  SNAKE_CELL_NOTHING) as (M1 & M2 & M3 & M4 & M5 & M6).
    cbn [tail_xpos tail_ypos set_inhibit_tail_step].
    set (c1 := put_cell_at_ c (tail_xpos c) (tail_ypos c) SNAKE_CELL_NOTHING)
      in *.
    clearbody ct c1.
    destruct (ct =? SNAKE_CELL_SRIGHT);
      [| destruct (ct =? SNAKE_CELL_SUP);
         [| destruct (ct =? SNAKE_CELL_SLEFT);
            [| destruct (ct =? SNAKE_CELL_SDOWN)]]];
      cbn [head_xpos head_ypos cells tail_xpos tail_ypos next_dir
           inhibit_tail_step occupied_cells set_tail_xpos set_tail_ypos
           set_inhibit_tail_step];
      repeat split; congruence.
  - rewrite snake_step_tail_hold by assumption. cbn. tauto.
Qed.

(** The inhibit counter and the occupied-cell counter at line 256. *)
Lemma step_written_counters c :
  1 <= inhibit_tail_step c <= 127 ->
  inhibit_tail_step (step_written c) =
    (if inhibit_tail_step c =? 1 then 1 else inhibit_tail_step c - 1) /\
  occupied_cells (step_written c) = occupied_cells c.
Proof.
  intros Hi. unfold step_written, step_moved.
  pose proof (snake_step_tail_members c Hi) as (D1 & _ & D3 & _).
  set (t := snake_step_tail c) in *.
  pose proof (snake_step_head_members t) as (_ & _ & _ & _ & C5 & C6).
  pose proof (put_cell_members (snake_step_head t) (head_xpos t) (head_ypos t)
                (next_dir c + 1)) as (_ & _ & _ & _ & B5 & B6).
  set (w := put_cell_at_ (snake_step_head t) (head_xpos t) (head_ypos t)
              (next_dir c + 1)) in *.
  pose proof (put_cell_members w (head_xpos w) (head_ypos w) (next_dir c + 1))
    as (_ & _ & _ & _ & A5 & A6).
  split; congruence.
Qed.

(** The step when the new head cell is empty: no draw, no reset. *)
Lemma snake_step_empty rnd fuel p c :
  step_head_cell c = SNAKE_CELL_NOTHING ->
  snake_step rnd fuel p c = Some (p, step_written c).
Proof. intros H. rewrite snake_step_unfold, H. reflexivity. Qed.

(** The step when the new head cell is food and the board is not full. *)
Lemma snake_step_food rnd fuel p c :
  1 <= inhibit_tail_step c <= 127 ->
  step_head_cell c = SNAKE_CELL_FOOD -> occupied_cells c <> 432 ->
  snake_step rnd fuel p c =
  '(p1, c1) ← new_food_pos_ rnd fuel p (step_written c);
  Some (p1,
        set_occupied_cells (to_uint (occupied_cells c1 + 1))
          (set_inhibit_tail_step (to_schar (inhibit_tail_step c1 + 1)) c1)).
Proof.
  intros Hi H Hocc. rewrite snake_step_unfold, H.
  change (negb (SNAKE_CELL_FOOD =? SNAKE_CELL_NOTHING) &&
          negb (SNAKE_CELL_FOOD =? SNAKE_CELL_FOOD)) with false.
  change (SNAKE_CELL_FOOD =? SNAKE_CELL_FOOD) with true. cbv iota.
  unfold are_cells_full_.
  destruct (step_written_counters c Hi) as [_ ->].
  change (to_uint (SNAKE_GAME_WIDTH * SNAKE_GAME_HEIGHT)) with 432.
  destruct (Z.eqb_spec (occupied_cells c) 432); [contradiction | reflexivity].
Qed.

(** The step when it resets the game. *)
Lemma snake_step_reset rnd fuel p c :
  (step_head_cell c <> SNAKE_CELL_NOTHING /\
   step_head_cell c <> SNAKE_CELL_FOOD) \/
  (step_head_cell c = SNAKE_CELL_FOOD /\
   occupied_cells (step_written c) = 432) ->
  snake_step rnd fuel p c = initial_food rnd fuel 4 p init_base.
Proof.
  intros H. rewrite snake_step_unfold.
  destruct H as [[H0 H5] | [H5 Hfull]].
  - destruct (Z.eqb_spec (step_head_cell c) SNAKE_CELL_NOTHING);
      [contradiction |].
    destruct (Z.eqb_spec (step_head_cell c) SNAKE_CELL_FOOD);
      [contradiction |].
    apply snake_initialize_unfold.
  - rewrite H5.
    change (negb (SNAKE_CELL_FOOD =? SNAKE_CELL_NOTHING) &&
            negb (SNAKE_CELL_FOOD =? SNAKE_CELL_FOOD)) with false.
    change (SNAKE_CELL_FOOD =? SNAKE_CELL_FOOD) with true. cbv iota.
    unfold are_cells_full_. rewrite Hfull.
    apply snake_initialize_unfold.
Qed.

(** ** Redirection *)

Lemma snake_redir_spec c d :
  snake_redir c d =
  if snake_cell_at c (head_xpos c) (head_ypos c) =? opposite_cell d then c
  else set_next_dir (dir_code d) c.
Proof.
  unfold snake_redir, redir_allowed.
  destruct d; cbn [opposite_cell dir_code];
    destruct (snake_cell_at c (head_xpos c) (head_ypos c) =? _); reflexivity.
Qed.

Lemma snake_redir_ok c d : ctx_ok c -> ctx_ok (snake_redir c d).
Proof.
  intros Hok. rewrite snake_redir_spec.
  destruct (_ =? _); [exact Hok |].
  destruct Hok. split; try assumption. destruct d; cbn; lia.
Qed.

(** ** Reachable states *)

Lemma reachable_ok rnd p c : reachable rnd p c -> ctx_ok c.
Proof.
  induction 1 as [fuel p c0 p' c' H | p c d _ IH | fuel p c p' c' _ IH H].
  - exact (snake_initialize_ok _ _ _ _ _ _ H).
  - apply snake_redir_ok. exact IH.
  - exact (snake_step_ok _ _ _ _ _ _ IH H).
Qed.

(** * The claims *)

(** C1. After [snake_initialize] on the 24 x 18 grid the head and the tail
    are both at (12, 9), the cell (12, 9) is [SNAKE_CELL_SRIGHT], the
    pending direction is Right, the inhibit counter is 4, the
    occupied-cell counter is 7, exactly four cells hold food, and every
    cell other than (12, 9) and the food cells is empty.  This holds of
    every state that the function returns, whatever state it was given;
    and it does return under every generator that keeps drawing every
    cell of the grid. *)
Theorem C1_initialize_state rnd p ctx :
  (forall fuel p' c',
     snake_initialize rnd fuel p ctx = Some (p', c') ->
     (head_xpos c', head_ypos c') = (12, 9) /\
     (tail_xpos c', tail_ypos c') = (12, 9) /\
     snake_cell_at c' 12 9 = SNAKE_CELL_SRIGHT /\
     next_dir c' = dir_code SNAKE_DIR_RIGHT /\
     inhibit_tail_step c' = 4 /\
     occupied_cells c' = 7 /\
     count_cells SNAKE_CELL_FOOD c' = 4%nat /\
     (forall x y, in_grid x y -> (x, y) <> (12, 9) ->
        snake_cell_at c' x y <> SNAKE_CELL_FOOD ->
        snake_cell_at c' x y = SNAKE_CELL_NOTHING)) /\
  (fair_from rnd p ->
   exists fuel p' c', snake_initialize rnd fuel p ctx = Some (p', c')).
Proof.
  split.
  - intros fuel p' c' H.
    destruct (snake_initialize_post _ _ _ _ _ _ H)
      as [[Hx Hy] [Tx Ty] Hb Hd Hi Ho Hf Hr].
    rewrite Hx, Hy, Tx, Ty. repeat split; assumption.
  - intros Hf. destruct (snake_initialize_total rnd p ctx Hf) as (f0 & H0).
    exists f0. apply H0. lia.
Qed.

(** C1 on the scanning generator: the four food cells are (0, 0) to
    (3, 0). *)
Lemma C1_initialize_state_witness :
  match snake_initialize scan_rnd 10 0 zero_ctx with
  | Some (p', c') =>
      p' = 8%nat /\
      map (fun x => snake_cell_at c' x 0) [0; 1; 2; 3; 4] = [5; 5; 5; 5; 0] /\
      (head_xpos c', head_ypos c') = (12, 9) /\
      inhibit_tail_step c' = 4 /\ occupied_cells c' = 7 /\
      count_cells SNAKE_CELL_FOOD c' = 4%nat
  | None => False
  end.
Proof.
  destruct (snake_initialize scan_rnd 10 0 zero_ctx) as [[p' c'] |] eqn:E.
  - pose proof (proj1 (C1_initialize_state scan_rnd 0 zero_ctx) 10%nat p' c' E)
      as (Hh & _ & _ & _ & Hi & Ho & Hf & _).
    vm_compute in E. inversion E; subst p'.
    split; [reflexivity |]. split; [subst c'; vm_compute; reflexivity |].
    repeat split; assumption.
  - vm_compute in E. discriminate E.
Defined.

Lemma is_body_spec v :
  is_body v = true -> v <> SNAKE_CELL_NOTHING /\ v <> SNAKE_CELL_FOOD.
Proof.
  unfold is_body, SNAKE_CELL_SRIGHT, SNAKE_CELL_SDOWN, SNAKE_CELL_NOTHING,
    SNAKE_CELL_FOOD.
  intros H. apply andb_true_iff in H as [H1 H4].
  apply Z.leb_le in H1. apply Z.leb_le in H4. lia.
Qed.

Lemma snake_step_tail_occupied c :
  occupied_cells (snake_step_tail c) = occupied_cells c.
Proof.
  unfold snake_step_tail.
  cbn [inhibit_tail_step set_inhibit_tail_step tail_xpos tail_ypos].
  destruct (to_schar (inhibit_tail_step c - 1) =? 0); [| reflexivity].
  rewrite !put_cell_set_inhibit.
  set (ct := snake_cell_at _ _ _).
  pose proof (put_cell_members c (tail_xpos c) (tail_ypos c)
                SNAKE_CELL_NOTHING) as (_ & _ & _ & _ & _ & M6).
  set (c1 := put_cell_at_ c (tail_xpos c) (tail_ypos c) SNAKE_CELL_NOTHING)
    in *.
  clearbody ct c1.
  destruct (ct =? SNAKE_CELL_SRIGHT);
    [| destruct (ct =? SNAKE_CELL_SUP);
       [| destruct (ct =? SNAKE_CELL_SLEFT);
          [| destruct (ct =? SNAKE_CELL_SDOWN)]]];
    cbn [occupied_cells set_tail_xpos set_tail_ypos set_inhibit_tail_step];
    exact M6.
Qed.

Lemma step_written_occupied c :
  occupied_cells (step_written c) = occupied_cells c.
Proof.
  unfold step_written, step_moved.
  set (t := snake_step_tail c).
  pose proof (snake_step_head_members t) as (_ & _ & _ & _ & _ & C6).
  pose proof (put_cell_members (snake_step_head t) (head_xpos t) (head_ypos t)
                (next_dir c + 1)) as (_ & _ & _ & _ & _ & B6).
  set (w := put_cell_at_ (snake_step_head t) (head_xpos t) (head_ypos t)
              (next_dir c + 1)) in *.
  pose proof (put_cell_members w (head_xpos w) (head_ypos w) (next_dir c + 1))
    as (_ & _ & _ & _ & _ & A6).
  pose proof (snake_step_tail_occupied c) as D6. fold t in D6. congruence.
Qed.

(** C2. When [snake_step] finds a body cell at the new head position, or
    finds food there while the occupied-cell counter equals 24 x 18, the
    step is a call of [snake_initialize] and nothing else: it returns
    what a fresh [snake_initialize] returns at the same point of the
    generator's stream, and that is the same for every state the
    initialisation starts from.  The state it returns is the canonical
    one: head and tail at (12, 9), counter 7, inhibit counter 4, four
    food cells and nothing else beside the body cell at (12, 9). *)
Theorem C2_reset_is_initialize rnd p c :
  is_body (step_head_cell c) = true \/
  (step_head_cell c = SNAKE_CELL_FOOD /\
   occupied_cells c = SNAKE_GAME_WIDTH * SNAKE_GAME_HEIGHT) ->
  (forall fuel, snake_step rnd fuel p c = snake_initialize rnd fuel p c) /\
  (forall fuel c0,
     snake_initialize rnd fuel p c0 = snake_initialize rnd fuel p c) /\
  (forall fuel p' c',
     snake_step rnd fuel p c = Some (p', c') ->
     (head_xpos c', head_ypos c') = (12, 9) /\
     (tail_xpos c', tail_ypos c') = (12, 9) /\
     snake_cell_at c' 12 9 = SNAKE_CELL_SRIGHT /\
     next_dir c' = dir_code SNAKE_DIR_RIGHT /\
     inhibit_tail_step c' = 4 /\
     occupied_cells c' = 7 /\
     count_cells SNAKE_CELL_FOOD c' = 4%nat /\
     (forall x y, in_grid x y -> (x, y) <> (12, 9) ->
        snake_cell_at c' x y <> SNAKE_CELL_FOOD ->
        snake_cell_at c' x y = SNAKE_CELL_NOTHING)) /\
  (fair_from rnd p ->
   exists fuel p' c', snake_step rnd fuel p c = Some (p', c')).
Proof.
  intros H.
  assert (Hreset : forall fuel,
            snake_step rnd fuel p c = initial_food rnd fuel 4 p init_base).
  { intros fuel. apply snake_step_reset.
    destruct H as [Hb | [Hf Hocc]].
    - left. exact (is_body_spec _ Hb).
    - right. split; [exact Hf |]. rewrite step_written_occupied. exact Hocc. }
  split; [intros fuel; rewrite Hreset, snake_initialize_unfold; reflexivity |].
  split; [intros fuel c0; rewrite !snake_initialize_unfold; reflexivity |].
  split.
  - intros fuel p' c' Hs. rewrite Hreset in Hs.
    rewrite <- (snake_initialize_unfold rnd fuel p c) in Hs.
    destruct (snake_initialize_post _ _ _ _ _ _ Hs)
      as [[Hx Hy] [Tx Ty] Hb Hd Hi Ho Hf Hr].
    rewrite Hx, Hy, Tx, Ty. repeat split; assumption.
  - intros Hf. destruct (snake_initialize_total rnd p c Hf) as (f0 & H0).
    exists f0. rewrite Hreset, <- (snake_initialize_unfold rnd f0 p c).
    apply H0. lia.
Qed.

Lemma C2_reset_is_initialize_witness :
  snake_step scan_rnd 10 0 collide_ctx =
    snake_initialize scan_rnd 10 0 collide_ctx /\
  snake_step scan_rnd 10 0 win_ctx = snake_initialize scan_rnd 10 0 win_ctx.
Proof.
  assert (Hc : is_body (step_head_cell collide_ctx) = true)
    by (vm_compute; reflexivity).
  assert (Hw : step_head_cell win_ctx = SNAKE_CELL_FOOD /\
               occupied_cells win_ctx = SNAKE_GAME_WIDTH * SNAKE_GAME_HEIGHT)
    by (split; vm_compute; reflexivity).
  destruct (C2_reset_is_initialize scan_rnd 0 collide_ctx (or_introl Hc))
    as (H1 & _).
  destruct (C2_reset_is_initialize scan_rnd 0 win_ctx (or_intror Hw))
    as (H2 & _).
  split; [exact (H1 10%nat) | exact (H2 10%nat)].
Defined.


Lemma food_ctx_ok : ctx_ok food_ctx.
Proof.
  split.
  - apply put_cell_cells_ok, put_cell_cells_ok, cells_ok_zero.
  - vm_compute. intuition discriminate.
  - vm_compute. intuition discriminate.
  - vm_compute. intuition discriminate.
  - vm_compute. intuition discriminate.
  - vm_compute. intuition discriminate.
Qed.


(** ** Steps that do not reset *)

(** Where head and tail are after a step that does not reset the game. *)
Lemma snake_step_positions rnd fuel p c p' c' :
  ctx_ok c ->
  step_head_cell c = SNAKE_CELL_NOTHING \/
  (step_head_cell c = SNAKE_CELL_FOOD /\ occupied_cells c <> 432) ->
  snake_step rnd fuel p c = Some (p', c') ->
  head_xpos c' = head_xpos (step_moved c) /\
  head_ypos c' = head_ypos (step_moved c) /\
  tail_xpos c' = tail_xpos (snake_step_tail c) /\
  tail_ypos c' = tail_ypos (snake_step_tail c).
Proof.
  intros Hok Hcase Hs.
  destruct (step_written_spec c Hok)
    as (Hokw & W1 & W2 & W3 & W4 & W5 & W6 & W7 & _).
  pose proof (snake_step_head_members (snake_step_tail c))
    as (_ & M2 & M3 & _).
  fold (step_moved c) in M2, M3.
  destruct Hcase as [H0 | [H5 Hocc]].
  - rewrite (snake_step_empty rnd fuel p c H0) in Hs.
    inversion Hs; subst. repeat split; congruence.
  - rewrite (snake_step_food rnd fuel p c (ok_inhibit _ Hok) H5 Hocc) in Hs.
    destruct (new_food_pos_ rnd fuel p (step_written c)) as [[p1 c1] |] eqn:Hf;
      [| discriminate].
    cbn in Hs. inversion Hs; subst p' c'. clear Hs.
    pose proof Hokw as [Hcw [Hwx _] _ _ _ _].
    unfold SNAKE_GAME_WIDTH in Hwx.
    destruct (new_food_pos_effect _ _ _ _ _ _ Hf Hcw)
      as (x & y & k & _ & _ & _ & _ & _ & _ & _ & S1 & S2 & S3 & S4 & _);
      [unfold is_schar; lia |].
    cbn [head_xpos head_ypos tail_xpos tail_ypos set_occupied_cells
         set_inhibit_tail_step].
    repeat split; congruence.
Qed.

(** The two phases and the two writes use at most three more cells. *)
Lemma step_written_used c :
  ctx_ok c -> (count_used (step_written c) <= count_used c + 3)%nat.
Proof.
  intros Hok.
  destruct (snake_step_tail_ok c Hok) as [Hokt _].
  pose proof (step_moved_ok c Hok) as Hokm.
  assert (Ht : (count_used (snake_step_tail c) <= count_used c + 1)%nat).
  { destruct (Z.eq_dec (inhibit_tail_step c) 1) as [E | N].
    - destruct (snake_step_tail_advance c Hok E) as (_ & _ & _ & E4 & _).
      rewrite count_used_code.
      rewrite (count_code_cells _ _ _ E4) by apply (ok_cells _ Hokt).
      apply count_used_put; [apply (ok_cells _ Hok) | apply (ok_tail _ Hok)].
    - rewrite snake_step_tail_hold by (try assumption; apply (ok_inhibit _ Hok)).
      rewrite count_used_code.
      rewrite (count_code_cells _
                 (set_inhibit_tail_step (inhibit_tail_step c - 1) c) c eq_refl)
        by apply (ok_cells _ Hok).
      rewrite <- count_used_code. lia. }
  assert (Hm : count_used (step_moved c) = count_used (snake_step_tail c)).
  { pose proof (snake_step_head_members (snake_step_tail c)) as (E & _).
    rewrite !count_used_code. apply count_code_cells; [exact E |].
    apply (ok_cells _ Hokm). }
  unfold step_written.
  set (w := put_cell_at_ (step_moved c) _ _ _).
  assert (Hw : (count_used w <= count_used (step_moved c) + 1)%nat)
    by (apply count_used_put; [apply (ok_cells _ Hokm) | apply (ok_head _ Hokt)]).
  assert (Hcw : cells_ok (cells w))
    by (apply put_cell_cells_ok, (ok_cells _ Hokm)).
  assert (Hgw : in_grid (head_xpos w) (head_ypos w)).
  { destruct (put_cell_scalars (step_moved c)
                (head_xpos (snake_step_tail c)) (head_ypos (snake_step_tail c))
                (next_dir c + 1) (ok_cells _ Hokm) (ok_head _ Hokt))
      as (A1 & A2 & _).
    - destruct (ok_head _ Hokm) as [Hx _]. unfold SNAKE_GAME_WIDTH in Hx.
      unfold is_schar. lia.
    - fold w in A1, A2. rewrite A1, A2. apply (ok_head _ Hokm). }
  pose proof (count_used_put w (head_xpos w) (head_ypos w) (next_dir c + 1)
                Hcw Hgw).
  lia.
Qed.

(** A step returns under a fair generator when the grid has room. *)
Lemma snake_step_total rnd p c :
  ctx_ok c -> fair_from rnd p -> (count_used c + 3 < 432)%nat ->
  exists fuel p' c', snake_step rnd fuel p c = Some (p', c').
Proof.
  intros Hok Hfair Hused.
  pose proof (step_written_used c Hok) as Hw.
  destruct (snake_initialize_total rnd p c Hfair) as (fi & Hinit).
  destruct (new_food_pos_total rnd p (step_written c) Hfair) as (ff & Hfood);
    [lia |].
  destruct (Hfood ff (Nat.le_refl _)) as (p1 & c1 & E1).
  destruct (Hinit fi (Nat.le_refl _)) as (p2 & c2 & E2).
  rewrite snake_initialize_unfold in E2.
  destruct (Z.eq_dec (step_head_cell c) SNAKE_CELL_NOTHING) as [H0 | N0].
  { exists O. rewrite (snake_step_empty rnd O p c H0). eauto. }
  destruct (Z.eq_dec (step_head_cell c) SNAKE_CELL_FOOD) as [H5 | N5].
  - destruct (Z.eq_dec (occupied_cells c) 432) as [Hfull | Hroom].
    + exists fi. rewrite snake_step_reset, E2; [eauto |].
      right. split; [exact H5 |]. rewrite step_written_occupied. exact Hfull.
    + exists ff.
      rewrite (snake_step_food rnd ff p c (ok_inhibit _ Hok) H5 Hroom), E1.
      cbn. eauto.
  - exists fi. rewrite snake_step_reset, E2; [eauto |]. left. tauto.
Qed.

Lemma initial_food_pos rnd fuel : forall n p c p' c',
  initial_food rnd fuel n p c = Some (p', c') ->
  exists m, p' = (p + 2 * m)%nat.
Proof.
  induction n as [| n IH]; intros p c p' c' H.
  - inversion H; subst. exists O. lia.
  - cbn [initial_food] in H.
    destruct (new_food_pos_ rnd fuel p c) as [[p1 c1] |] eqn:Hf;
      [| discriminate].
    cbn in H. destruct (new_food_pos_spec _ _ _ _ _ _ Hf) as (k & _ & Hp & _).
    destruct (IH _ _ _ _ H) as (m & Hm). exists (S k + m)%nat. lia.
Qed.

Lemma snake_initialize_fair rnd fuel p c0 p' c' :
  snake_initialize rnd fuel p c0 = Some (p', c') ->
  fair_from rnd p -> fair_from rnd p'.
Proof.
  rewrite snake_initialize_unfold. intros H Hf.
  destruct (initial_food_pos _ _ _ _ _ _ _ H) as (m & ->).
  apply fair_from_shift. exact Hf.
Qed.

(** The first step after an initialisation, heading right. *)
Lemma first_step_right rnd fuel p c p' c' :
  food_inv 4 c -> snake_step rnd fuel p c = Some (p', c') ->
  (head_xpos c', head_ypos c') = (13, 9).
Proof.
  intros Hinv Hs.
  pose proof (food_inv_ok 4 c Hinv (Nat.le_refl _)) as Hok.
  destruct Hinv as [Hcells [Hhx Hhy] _ Hdir Hinh Hocc _ _ _ Hrest].
  assert (Ht : snake_step_tail c = set_inhibit_tail_step 3 c)
    by (rewrite snake_step_tail_hold by lia; rewrite Hinh; reflexivity).
  destruct (snake_step_head_spec (snake_step_tail c))
    as (M1 & M2 & M3 & _).
  { rewrite Ht. apply (ok_head _ Hok). }
  fold (step_moved c) in M1, M2, M3.
  rewrite Ht in M1, M2, M3.
  cbn [head_xpos head_ypos next_dir cells set_inhibit_tail_step] in M1, M2, M3.
  rewrite Hhx, Hhy, Hdir in *.
  change ((12 + dir_dx 0) mod SNAKE_GAME_WIDTH) with 13 in M1.
  change ((9 + dir_dy 0) mod SNAKE_GAME_HEIGHT) with 9 in M2.
  assert (Hg : in_grid 13 9)
    by (unfold in_grid, SNAKE_GAME_WIDTH, SNAKE_GAME_HEIGHT; lia).
  assert (Hcell : step_head_cell c = snake_cell_at c 13 9).
  { unfold step_head_cell. cbv zeta. rewrite M1, M2.
    apply cell_at_cells; [exact M3 | rewrite M3; exact Hcells | exact Hg]. }
  destruct (snake_step_positions rnd fuel p c p' c' Hok) as (P1 & P2 & _).
  - rewrite Hcell.
    destruct (Hrest 13 9 Hg) as [E | E]; [congruence | left; exact E |].
    right. split; [exact E | lia].
  - exact Hs.
  - rewrite P1, P2, M1, M2. reflexivity.
Qed.

Lemma redir_left_rejected c n :
  snake_cell_at c (head_xpos c) (head_ypos c) = SNAKE_CELL_SRIGHT ->
  Nat.iter n (fun c => snake_redir c SNAKE_DIR_LEFT) c = c.
Proof.
  intros H. induction n as [| n IH]; [reflexivity |].
  rewrite Nat.iter_succ, IH, snake_redir_spec, H. reflexivity.
Qed.

(** C4. [snake_redir] leaves the state, and with it the pending direction,
    unchanged when the requested direction is the opposite of the one
    stored in the body cell at the head position, and otherwise
    overwrites the pending direction with the request.  After an
    initialisation any number of requests for Left is rejected: the
    pending direction is still Right, and the step that follows takes
    the head to (13, 9). *)
Theorem C4_redirect :
  (forall c d,
     snake_redir c d =
     if snake_cell_at c (head_xpos c) (head_ypos c) =? opposite_cell d
     then c else set_next_dir (dir_code d) c) /\
  (forall rnd fuel p c0 p1 c1 n,
     snake_initialize rnd fuel p c0 = Some (p1, c1) ->
     let c2 := Nat.iter n (fun c => snake_redir c SNAKE_DIR_LEFT) c1 in
     next_dir c2 = dir_code SNAKE_DIR_RIGHT /\
     (forall fuel' p3 c3,
        snake_step rnd fuel' p1 c2 = Some (p3, c3) ->
        (head_xpos c3, head_ypos c3) = (13, 9)) /\
     (fair_from rnd p ->
      exists fuel' p3 c3, snake_step rnd fuel' p1 c2 = Some (p3, c3))).
Proof.
  split; [exact snake_redir_spec |].
  intros rnd fuel p c0 p1 c1 n Hinit c2.
  pose proof (snake_initialize_inv _ _ _ _ _ _ Hinit) as Hinv.
  assert (E : c2 = c1).
  { subst c2. apply redir_left_rejected.
    destruct Hinv as [_ [-> ->] _ _ _ _ Hb _ _ _]. exact Hb. }
  rewrite E. split; [apply (fi_dir _ _ Hinv) |]. split.
  - intros fuel' p3 c3 Hs. exact (first_step_right _ _ _ _ _ _ Hinv Hs).
  - intros Hfair. apply snake_step_total.
    + apply (food_inv_ok 4); [exact Hinv | lia].
    + exact (snake_initialize_fair _ _ _ _ _ _ Hinit Hfair).
    + rewrite (fi_used _ _ Hinv). lia.
Qed.

Lemma C4_redirect_witness :
  match snake_initialize scan_rnd 10 0 zero_ctx with
  | Some (p1, c1) =>
      let c2 := Nat.iter 3 (fun c => snake_redir c SNAKE_DIR_LEFT) c1 in
      next_dir c2 = dir_code SNAKE_DIR_RIGHT /\
      match snake_step scan_rnd 10 p1 c2 with
      | Some (_, c3) => (head_xpos c3, head_ypos c3) = (13, 9)
      | None => False
      end
  | None => False
  end.
Proof.
  destruct (snake_initialize scan_rnd 10 0 zero_ctx) as [[p1 c1] |] eqn:E.
  - destruct (proj2 C4_redirect scan_rnd 10%nat 0%nat zero_ctx p1 c1 3%nat E)
      as (Hd & Hstep & _).
    split; [exact Hd |].
    destruct (snake_step scan_rnd 10 p1 _) as [[p3 c3] |] eqn:Es.
    + exact (Hstep 10%nat p3 c3 Es).
    + vm_compute in E. inversion E; subst p1 c1. vm_compute in Es.
      discriminate Es.
  - vm_compute in E. discriminate E.
Defined.

(** C5. The two-byte window of a cell of the grid does not always lie
    inside the 162 bytes of [cells]: for the last cell, (23, 17), it is
    the pair of offsets 161 and 162, and offset 162 is the member
    [head_xpos] that follows the array.  The window lies inside the array
    exactly for the cells whose index [x + 24 y] is below 430, that is
    for all cells but (22, 17) and (23, 17).  The read of the cell
    (23, 17) loads the byte of [head_xpos] as the high byte of [range],
    and the write stores the high byte of [range] into [head_xpos]. *)
Theorem C5_window_overruns_cells :
  CELLS_BYTES = 162 /\
  window_bytes 23 17 = (161, 162) /\
  window_bytes 22 17 = (161, 162) /\
  (forall c, load_range c 161 =
             ctx_load c 161 + 256 * to_uchar (head_xpos c)) /\
  (forall c, snake_cell_at c 23 17 =
             Z.land (Z.shiftr (load_range c 161) 5) THREE_BITS) /\
  (forall c r, head_xpos (store_range c 161 r) = to_schar (r / 256)) /\
  (forall x y, in_grid x y ->
     (0 <= fst (window_bytes x y) /\ snd (window_bytes x y) < CELLS_BYTES <->
      x + 24 * y < 430)).
Proof.
  split; [reflexivity |]. split; [reflexivity |]. split; [reflexivity |].
  split; [intros c; reflexivity |].
  split; [intros c; reflexivity |].
  split; [intros c r; reflexivity |].
  intros x y Hg. unfold window_bytes. cbn [fst snd].
  destruct (window_in_struct x y Hg) as (Hq & _ & Hk & _ & _ & _).
  rewrite Hq. rewrite (shift_in_grid x y Hg) in *.
  change CELLS_BYTES with 162.
  unfold in_grid, SNAKE_GAME_WIDTH, SNAKE_GAME_HEIGHT in Hg.
  pose proof (Z.div_mod ((x + y * 24) * 3) 8 ltac:(lia)) as Hdm.
  pose proof (Z.mod_pos_bound ((x + y * 24) * 3) 8 ltac:(lia)) as Hm.
  revert Hk Hdm Hm.
  generalize (((x + y * 24) * 3) / 8). generalize (((x + y * 24) * 3) mod 8).
  intros m k Hk Hdm Hm. lia.
Qed.

(** C6. On the grid, reading a cell right after writing a code [ct] of
    0 .. 5 to it returns [ct]; the read of every other cell of the grid
    returns what it returned before the write; and the write changes no
    scalar member of the state. *)
Theorem C6_put_then_get c x y ct :
  cells_ok (cells c) -> is_schar (head_xpos c) ->
  in_grid x y -> 0 <= ct <= 5 ->
  snake_cell_at (put_cell_at_ c x y ct) x y = ct /\
  (forall x' y', in_grid x' y' -> (x', y') <> (x, y) ->
     snake_cell_at (put_cell_at_ c x y ct) x' y' = snake_cell_at c x' y') /\
  (let c' := put_cell_at_ c x y ct in
   head_xpos c' = head_xpos c /\ head_ypos c' = head_ypos c /\
   tail_xpos c' = tail_xpos c /\ tail_ypos c' = tail_ypos c /\
   next_dir c' = next_dir c /\
   inhibit_tail_step c' = inhibit_tail_step c /\
   occupied_cells c' = occupied_cells c).
Proof.
  intros Hok Hc Hg Hct. split; [| split].
  - rewrite cell_at_put_same by assumption.
    unfold THREE_BITS. change 7 with (Z.ones 3).
    rewrite Z.land_ones by lia. apply Z.mod_small.
    change (2 ^ 3) with 8. lia.
  - intros x' y' Hg' Hne. apply cell_at_put_other; assumption.
  - apply put_cell_scalars; assumption.
Qed.

Lemma C6_put_then_get_witness :
  snake_cell_at (put_cell_at_ food_ctx 23 17 SNAKE_CELL_SDOWN) 23 17
    = SNAKE_CELL_SDOWN /\
  snake_cell_at (put_cell_at_ food_ctx 23 17 SNAKE_CELL_SDOWN) 22 17
    = snake_cell_at food_ctx 22 17 /\
  head_xpos (put_cell_at_ food_ctx 23 17 SNAKE_CELL_SDOWN) = 12.
Proof.
  destruct (C6_put_then_get food_ctx 23 17 SNAKE_CELL_SDOWN)
    as (H1 & H2 & H3 & _).
  - apply (ok_cells _ food_ctx_ok).
  - vm_compute. intuition discriminate.
  - vm_compute. intuition discriminate.
  - vm_compute. intuition discriminate.
  - split; [exact H1 |]. split; [| exact H3].
    apply H2; [vm_compute; intuition discriminate | discriminate].
Defined.

(** C10. [snake_redir] decides from the body cell at the head position
    alone: whatever the pending direction is, the request is accepted or
    rejected the same way.  So right after an initialisation, where the
    head cell faces right, a request for Up followed by a request for
    Down leaves Down pending, the opposite of the direction that the
    first request had set. *)
Theorem C10_redir_ignores_pending :
  (forall c v d,
     snake_redir (set_next_dir v c) d =
     if redir_allowed d (snake_cell_at c (head_xpos c) (head_ypos c))
     then set_next_dir (dir_code d) c else set_next_dir v c) /\
  (forall rnd fuel p c0 p1 c1,
     snake_initialize rnd fuel p c0 = Some (p1, c1) ->
     reachable rnd p1 c1 /\
     next_dir (snake_redir c1 SNAKE_DIR_UP) = dir_code SNAKE_DIR_UP /\
     next_dir (snake_redir (snake_redir c1 SNAKE_DIR_UP) SNAKE_DIR_DOWN)
       = dir_code SNAKE_DIR_DOWN).
Proof.
  split.
  - intros c v d. unfold snake_redir.
    cbn [head_xpos head_ypos set_next_dir].
    change (snake_cell_at (set_next_dir v c) (head_xpos c) (head_ypos c))
      with (snake_cell_at c (head_xpos c) (head_ypos c)).
    destruct (redir_allowed d _); [| reflexivity].
    destruct d; reflexivity.
  - intros rnd fuel p c0 p1 c1 Hinit.
    split; [exact (reach_init rnd fuel p c0 p1 c1 Hinit) |].
    destruct (snake_initialize_inv _ _ _ _ _ _ Hinit)
      as [_ [Hx Hy] _ _ _ _ Hb _ _ _].
    assert (E1 : snake_redir c1 SNAKE_DIR_UP =
                 set_next_dir (dir_code SNAKE_DIR_UP) c1).
    { rewrite snake_redir_spec, Hx, Hy, Hb. reflexivity. }
    rewrite E1. split; [reflexivity |].
    rewrite snake_redir_spec.
    cbn [head_xpos head_ypos set_next_dir].
    change (snake_cell_at (set_next_dir (dir_code SNAKE_DIR_UP) c1)
              (head_xpos c1) (head_ypos c1))
      with (snake_cell_at c1 (head_xpos c1) (head_ypos c1)).
    rewrite Hx, Hy, Hb. reflexivity.
Qed.

Lemma C10_redir_ignores_pending_witness :
  match snake_initialize scan_rnd 10 0 zero_ctx with
  | Some (_, c1) =>
      next_dir (snake_redir c1 SNAKE_DIR_UP) = 1 /\
      next_dir (snake_redir (snake_redir c1 SNAKE_DIR_UP) SNAKE_DIR_DOWN) = 3
  | None => False
  end.
Proof.
  destruct (snake_initialize scan_rnd 10 0 zero_ctx) as [[p1 c1] |] eqn:E.
  - exact (proj2 (proj2 C10_redir_ignores_pending scan_rnd 10%nat 0%nat
                    zero_ctx p1 c1 E)).
  - vm_compute in E. discriminate E.
Defined.

(** C7. A coordinate of the grid moved by one cell and passed through
    [wrap_around_] is the moved coordinate reduced modulo the size of the
    grid.  So the head phase of a step stores the head position plus the
    unit vector of the pending direction, modulo 24 and 18, and the tail
    phase, when the tail advances, stores the tail position plus the
    unit vector of the direction held by the tail cell, modulo 24 and 18.
    In every reachable state head and tail are cells of the grid. *)
Theorem C7_toroidal_wrap :
  (forall v d m,
     0 < m <= 127 -> 0 <= v < m -> -1 <= d <= 1 ->
     wrap_around_ (to_schar (v + d)) m = (v + d) mod m) /\
  (forall c,
     in_grid (head_xpos c) (head_ypos c) ->
     head_xpos (snake_step_head c) =
       (head_xpos c + dir_dx (next_dir c)) mod SNAKE_GAME_WIDTH /\
     head_ypos (snake_step_head c) =
       (head_ypos c + dir_dy (next_dir c)) mod SNAKE_GAME_HEIGHT) /\
  (forall c,
     ctx_ok c -> inhibit_tail_step c = 1 ->
     let ct := snake_cell_at c (tail_xpos c) (tail_ypos c) in
     tail_xpos (snake_step_tail c) =
       (tail_xpos c + dir_dx (ct - 1)) mod SNAKE_GAME_WIDTH /\
     tail_ypos (snake_step_tail c) =
       (tail_ypos c + dir_dy (ct - 1)) mod SNAKE_GAME_HEIGHT) /\
  (forall rnd p c,
     reachable rnd p c ->
     in_grid (head_xpos c) (head_ypos c) /\
     in_grid (tail_xpos c) (tail_ypos c)).
Proof.
  split; [exact wrap_move |]. split; [| split].
  - intros c Hg. destruct (snake_step_head_spec c Hg) as (E1 & E2 & _).
    split; assumption.
  - intros c Hok Hi ct.
    destruct (snake_step_tail_advance c Hok Hi) as (_ & E2 & E3 & _).
    split; assumption.
  - intros rnd p c Hr. pose proof (reachable_ok rnd p c Hr) as Hok.
    split; [apply (ok_head _ Hok) | apply (ok_tail _ Hok)].
Qed.

Lemma C7_toroidal_wrap_witness :
  wrap_around_ (to_schar (23 + 1)) 24 = 0 /\
  head_xpos (snake_step_head edge_ctx) = 0 /\
  head_ypos (snake_step_head top_ctx) = 17.
Proof.
  destruct C7_toroidal_wrap as (Hw & Hh & _).
  split; [apply (Hw 23 1 24); lia |]. split.
  - destruct (Hh edge_ctx) as [E _]; [vm_compute; intuition discriminate |].
    exact E.
  - destruct (Hh top_ctx) as [_ E]; [vm_compute; intuition discriminate |].
    exact E.
Defined.





(** ** The frame driver *)

Lemma SDL_AppIterate_steps rnd fuel now : forall (m n p : nat) st,
  0 <= last_step st -> last_step st <= now -> now < 18446744073709551616 ->
  (now - last_step st) / STEP_RATE_IN_MILLISECONDS = Z.of_nat m ->
  (m < n)%nat ->
  SDL_AppIterate rnd fuel n p now st =
  match snake_steps rnd fuel m p (snake_ctx st) with
  | Some (p', c') =>
      Some (p', mkAppState c'
                  (last_step st + STEP_RATE_IN_MILLISECONDS * Z.of_nat m))
  | None => None
  end.
Proof.
  unfold STEP_RATE_IN_MILLISECONDS.
  induction m as [| m IH]; intros n p [c t] H0 Hle Hnow Hk Hn;
    (destruct n as [| n]; [lia |]);
    cbn [last_step snake_ctx] in *; cbn [SDL_AppIterate snake_steps];
    cbn [last_step snake_ctx]; unfold STEP_RATE_IN_MILLISECONDS;
    unfold to_uint64; rewrite (Z.mod_small (now - t)) by lia;
    rewrite Z.geb_leb;
    pose proof (Z.div_mod (now - t) 125 ltac:(lia)) as Hdm;
    pose proof (Z.mod_pos_bound (now - t) 125 ltac:(lia)) as Hm.
  - destruct (Z.leb_spec 125 (now - t)); [lia |].
    f_equal. f_equal. f_equal. lia.
  - destruct (Z.leb_spec 125 (now - t)); [| lia].
    destruct (snake_step rnd fuel p c) as [[p1 c1] |]; [| reflexivity].
    cbn. rewrite (Z.mod_small (t + 125)) by lia.
    rewrite IH; cbn [last_step snake_ctx]; try lia.
    + destruct (snake_steps rnd fuel m p1 c1) as [[p2 c2] |]; [| reflexivity].
      f_equal. f_equal. f_equal. lia.
    + replace (now - (t + 125)) with (now - t + (-1) * 125) by lia.
      rewrite Z.div_add by lia. lia.
Qed.

(** C9. In a frame polled at time [now], with [t] the stored time of the
    last step and [t <= now], the update loop of [SDL_AppIterate] makes
    exactly [(now - t) / 125] calls of [snake_step], one after the other,
    and adds that many times 125 to the stored time, so that what is left
    over is [(now - t) mod 125].  Hence the steps of this frame and of
    the next one, polled at any later time [now2], add up to
    [(now2 - t) / 125] wherever the frames fall. *)
Theorem C9_frame_driver rnd fuel p now st :
  0 <= last_step st -> last_step st <= now -> now < 18446744073709551616 ->
  let k := (now - last_step st) / STEP_RATE_IN_MILLISECONDS in
  let t' := last_step st + STEP_RATE_IN_MILLISECONDS * k in
  (forall n, (Z.to_nat k < n)%nat ->
     SDL_AppIterate rnd fuel n p now st =
     match snake_steps rnd fuel (Z.to_nat k) p (snake_ctx st) with
     | Some (p', c') => Some (p', mkAppState c' t')
     | None => None
     end) /\
  now - t' = (now - last_step st) mod STEP_RATE_IN_MILLISECONDS /\
  (forall now2, now <= now2 ->
     k + (now2 - t') / STEP_RATE_IN_MILLISECONDS =
     (now2 - last_step st) / STEP_RATE_IN_MILLISECONDS).
Proof.
  intros H0 Hle Hnow k t'.
  assert (Hk : 0 <= k) by (apply Z.div_pos; unfold STEP_RATE_IN_MILLISECONDS; lia).
  split; [| split].
  - intros n Hn. subst t'.
    rewrite (SDL_AppIterate_steps rnd fuel now (Z.to_nat k) n p st)
      by (try assumption; rewrite Z2Nat.id by exact Hk; reflexivity).
    rewrite Z2Nat.id by exact Hk. reflexivity.
  - subst t' k. unfold STEP_RATE_IN_MILLISECONDS.
    pose proof (Z.div_mod (now - last_step st) 125 ltac:(lia)). lia.
  - intros now2 Hnow2. subst t'. unfold STEP_RATE_IN_MILLISECONDS in *.
    replace (now2 - (last_step st + 125 * k))
      with (now2 - last_step st + (- k) * 125) by lia.
    rewrite Z.div_add by lia. lia.
Qed.

Lemma C9_frame_driver_witness :
  match SDL_AppIterate scan_rnd 10 3 0 1300 (mkAppState food_ctx 1000) with
  | Some (_, st') =>
      last_step st' = 1250 /\
      Some (snake_ctx st') = option_map snd (snake_steps scan_rnd 10 2 0 food_ctx)
  | None => False
  end.
Proof.
  destruct (C9_frame_driver scan_rnd 10 0 1300 (mkAppState food_ctx 1000))
    as (H & _); [cbn; lia | cbn; lia | lia |].
  rewrite (H 3%nat) by (vm_compute; lia).
  change (Z.to_nat ((1300 - last_step (mkAppState food_ctx 1000)) /
                     STEP_RATE_IN_MILLISECONDS)) with 2%nat.
  cbn [snake_ctx last_step].
  destruct (snake_steps scan_rnd 10 2 0 food_ctx) as [[p' c'] |] eqn:E.
  - split; reflexivity.
  - vm_compute in E. discriminate E.
Defined.

(** * Further properties of the engine *)

(** ** The snake as a path *)

Lemma move_in_grid q d : in_grid (fst (move q d)) (snd (move q d)).
Proof.
  unfold move, in_grid. cbn [fst snd].
  split; apply mod_in_range; reflexivity.
Qed.

Lemma chain_body c l q : chain c l -> q ∈ l -> is_body (cell_of c q) = true.
Proof.
  induction l as [| q0 l IH]; intros Hc Hin.
  - inversion Hin.
  - destruct Hc as (Hb & _ & Hc). apply elem_of_cons in Hin as [-> | Hin];
      [exact Hb | exact (IH Hc Hin)].
Qed.

(** A chain only reads its own cells. *)
Lemma chain_ext c c' l :
  (forall q, q ∈ l -> cell_of c' q = cell_of c q) -> chain c l -> chain c' l.
Proof.
  induction l as [| q l IH]; intros Hext Hc; [exact I |].
  destruct Hc as (Hb & Hn & Hc). cbn [chain].
  rewrite (Hext q) by apply list_elem_of_here.
  split; [exact Hb |]. split; [exact Hn |].
  apply IH; [| exact Hc].
  intros q' Hq'. apply Hext. apply list_elem_of_further. exact Hq'.
Qed.

(** Extending a chain at its head: the old head cell is rewritten with
    the code [D] that leads to the new head, which holds [D] too. *)
Lemma chain_extend c c' D h' : forall l prev,
  chain c l -> last l = Some prev -> NoDup l ->
  (forall q, q ∈ l -> q <> prev -> cell_of c' q = cell_of c q) ->
  cell_of c' prev = D -> cell_of c' h' = D -> is_body D = true ->
  h' = move prev (D - 1) ->
  chain c' (l ++ [h']).
Proof.
  induction l as [| q l IH]; intros prev Hc Hlast Hnd Hext Hp Hh HD Hm;
    [discriminate |].
  destruct Hc as (Hb & Hn & Hc).
  destruct l as [| q2 l].
  - cbn in Hlast. inversion Hlast; subst q.
    cbn [app chain]. rewrite Hp, Hh. repeat split; assumption.
  - change ((q :: q2 :: l) ++ [h']) with (q :: (q2 :: l) ++ [h']).
    assert (Hlast' : last (q2 :: l) = Some prev) by exact Hlast.
    apply NoDup_cons in Hnd as [Hq Hnd].
    assert (Hne : q <> prev).
    { intros ->. apply Hq. apply last_Some in Hlast' as (l0 & ->).
      apply elem_of_app. right. apply list_elem_of_here. }
    cbn [chain]. change ((q2 :: l) ++ [h']) with (q2 :: (l ++ [h'])).
    cbv iota. rewrite (Hext q) by (try apply list_elem_of_here; assumption).
    split; [exact Hb |]. split; [exact Hn |].
    apply (IH prev); try assumption.
    intros q' Hq' Hne'. apply Hext; [| exact Hne'].
    apply list_elem_of_further. exact Hq'.
Qed.
